(** * DepecheR clustering engine: a shallow embedding of [Clusterer.cpp]

    The C++ class [Clusterer] implements a penalised k-means and a bootstrap
    search of its parameters.  This file embeds its member functions as Rocq
    functions and proves (or refutes) properties of them.

    Numbers.  A C++ [double] is modelled by an exact rational ([Q], compared
    with [==]): rounding, infinities and NaN are not modelled.  A division by
    zero yields [0] as in [Qdiv], where the code gets an infinity or a NaN;
    this happens in [reevaluate_centers] for a label without member, in
    [cluster_distance] for fewer than two points or a zero denominator, and
    in [optimize_param] for [iterations = 0], and the statements about values
    exclude these cases by hypothesis.  The ratio [(float)i/(float)20] of
    [find_centers], a single-precision number in the code, is the exact
    ratio here.  Every concrete input used below is a small dyadic number on
    which binary64 arithmetic is exact.

    Integers.  Row indices, labels and counters ([unsigned int], [int]) are
    naturals, assumed to stay below the machine word; the values of
    [std::rand()] are integers ([Z]).

    Matrices.  [RowMatrixXd] is a row-major matrix: a list of rows.
    [Eigen::VectorXd] is a list of rationals and [Eigen::VectorXi] a list of
    naturals. *)

From Stdlib Require Import List Bool Arith ZArith QArith Qminmax Lia Psatz.
From Stdlib Require Import Reals Qreals.
Import ListNotations.

Local Open Scope Q_scope.

(** ** The parts of Eigen and of the C++ standard library that the code uses *)

Module Eigen.

Definition VectorXd := list Q.
Definition VectorXi := list nat.
Definition RowMatrixXd := list (list Q).

(** [a < b] on doubles, as a boolean. *)
Definition Qltb (a b : Q) : bool := negb (Qle_bool b a).

(** [std::min(a, b)] is [(b < a) ? b : a], [std::max(a, b)] is
    [(a < b) ? b : a]. *)
Definition std_min (a b : Q) : Q := if Qltb b a then b else a.
Definition std_max (a b : Q) : Q := if Qltb a b then b else a.

Definition rows (X : RowMatrixXd) : nat := length X.
Definition cols (X : RowMatrixXd) : nat :=
  match X with
  | [] => O
  | r :: _ => length r
  end.

(** [X.row(i)]; the read is unchecked in the source, the model returns the
    empty row out of range. *)
Definition row (X : RowMatrixXd) (i : nat) : list Q := nth i X [].

(** [X(i, j)]. *)
Definition coeff (X : RowMatrixXd) (i j : nat) : Q := nth j (row X i) 0.

(** [VectorXd::Zero(n)], [VectorXi::Zero(n)], [VectorXi::Ones(n)] and
    [RowMatrixXd::Zero(r, c)]. *)
Definition ZeroXd (n : nat) : VectorXd := repeat 0 n.
Definition ZeroXi (n : nat) : VectorXi := repeat O n.
Definition OnesXi (n : nat) : VectorXi := repeat 1%nat n.
Definition Zero (r c : nat) : RowMatrixXd := repeat (repeat 0 c) r.

(** Coefficient-wise operations on two rows. *)
Fixpoint zip_with (f : Q -> Q -> Q) (a b : list Q) : list Q :=
  match a, b with
  | x :: a', y :: b' => f x y :: zip_with f a' b'
  | _, _ => []
  end.

Definition vadd (a b : list Q) : list Q := zip_with Qplus a b.
Definition vsub (a b : list Q) : list Q := zip_with Qminus a b.

Definition sum (v : list Q) : Q := fold_left Qplus v 0.

(** [v.squaredNorm()]. *)
Definition squaredNorm (v : list Q) : Q := sum (map (fun x => x * x) v).

(** [v.isZero(0)]: every coefficient [c] satisfies [abs(c) <= 0]. *)
Definition isZero (v : list Q) : bool := forallb (fun c => Qeq_bool c 0) v.

(** [(a - b).isZero(0)] on integer vectors of one size. *)
Fixpoint veqb (a b : VectorXi) : bool :=
  match a, b with
  | [], [] => true
  | x :: a', y :: b' => Nat.eqb x y && veqb a' b'
  | _, _ => false
  end.

(** Writes into a vector or a matrix at an index.  Eigen does not check the
    index; out of range the model leaves the object unchanged, and every
    theorem below that depends on such a write assumes the index in
    range. *)
Fixpoint update {A : Type} (f : A -> A) (i : nat) (l : list A) : list A :=
  match l, i with
  | [], _ => []
  | x :: l', O => f x :: l'
  | x :: l', S i' => x :: update f i' l'
  end.

(** [v.minCoeff(&index)]: the visitor keeps the first coefficient and
    replaces it only by a strictly smaller one, so [index] is the position
    of the first minimum.  [minCoeff_from] scans the coefficients from
    position [i] on, [best] being the smallest so far, at [best_index].
    [ltb] is the comparison [<] of the coefficient type. *)
Fixpoint minCoeff_from {A : Type} (ltb : A -> A -> bool)
  (best_index : nat) (best : A) (i : nat) (v : list A) : nat :=
  match v with
  | [] => best_index
  | x :: v' =>
      if ltb x best then minCoeff_from ltb i x (S i) v'
      else minCoeff_from ltb best_index best (S i) v'
  end.

Definition minCoeff {A : Type} (ltb : A -> A -> bool) (v : list A) : nat :=
  match v with
  | [] => O
  | x :: v' => minCoeff_from ltb O x 1%nat v'
  end.

End Eigen.

(** [std::map<double, unsigned int>]: an association list kept sorted by
    key. *)
Module StdMap.

Definition t := list (Q * nat).

(** [m[key] = v]. *)
Fixpoint set (m : t) (key : Q) (v : nat) : t :=
  match m with
  | [] => [(key, v)]
  | (k', v') :: m' =>
      match key ?= k' with
      | Lt => (key, v) :: m
      | Eq => (k', v) :: m'
      | Gt => (k', v') :: set m' key v
      end
  end.

(** [m.upper_bound(x)->second]: the value at the first key strictly above
    [x]; [None] stands for [m.end()], which must not be dereferenced. *)
Fixpoint upper_bound (m : t) (x : Q) : option nat :=
  match m with
  | [] => None
  | (k', v') :: m' => if Eigen.Qltb x k' then Some v' else upper_bound m' x
  end.

(** [m[x]] as an rvalue: the value at key [x], and [0] (a
    value-initialised [unsigned int], inserted on the fly) when the key is
    absent. *)
Fixpoint get (m : t) (x : Q) : nat :=
  match m with
  | [] => O
  | (k', v') :: m' => if Qeq_bool x k' then v' else get m' x
  end.

End StdMap.

(** ** Norms

    [v.norm()] is the square root of the rational [v.squaredNorm()].  The
    code only ever compares norms with each other, so a norm is kept as its
    radicand; [surd_val] is the real number it stands for. *)

Inductive surd : Type := Sqrt (radicand : Q).

Definition radicand (s : surd) : Q := let 'Sqrt q := s in q.

Definition surd_ltb (a b : surd) : bool := Eigen.Qltb (radicand a) (radicand b).

Definition surd_val (s : surd) : R := sqrt (Q2R (radicand s)).

(** ** Faults and the random stream

    The functions that draw random numbers run in a state monad over the
    position in the stream of [std::rand()] values.  A run ends with a value
    or with a fault: an access the C++ code performs without a check
    (undefined behaviour there), or the end of the fuel given to a loop that
    need not terminate. *)

Inductive fault : Type :=
| OutOfBounds
| ModuloByZero
| EndDereferenced
| FuelExhausted.

Inductive result (A : Type) : Type :=
| Ok (a : A)
| Fault (f : fault).

Arguments Ok {A} a.
Arguments Fault {A} f.

Definition M (A : Type) : Type := N -> result (A * N).

Definition ret {A : Type} (a : A) : M A := fun pos => Ok (a, pos).

Definition fail {A : Type} (f : fault) : M A := fun _ => Fault f.

Definition bind {A B : Type} (c : M A) (k : A -> M B) : M B :=
  fun pos =>
    match c pos with
    | Ok (a, pos') => k a pos'
    | Fault f => Fault f
    end.

Declare Scope clusterer_scope.
Delimit Scope clusterer_scope with clusterer.

Notation "x <- c ;; k" := (bind c (fun x => k))
  (at level 61, c at next level, right associativity) : clusterer_scope.
Notation "' pat <- c ;; k" := (bind c (fun x => match x with pat => k end))
  (at level 61, pat pattern, c at next level, right associativity)
  : clusterer_scope.

Fixpoint foldM {S A : Type} (f : S -> A -> M S) (l : list A) (s : S) : M S :=
  match l with
  | [] => ret s
  | a :: l' => bind (f s a) (foldM f l')
  end.

Fixpoint mapM {A B : Type} (f : A -> M B) (l : list A) : M (list B) :=
  match l with
  | [] => ret []
  | a :: l' => bind (f a) (fun b => bind (mapM f l') (fun bs => ret (b :: bs)))
  end.

(** ** The results of [Clusterer.h] *)

Record Return_values : Type := {
  indexes : Eigen.VectorXi;
  indexes_no_zero : Eigen.VectorXi;
  centers : Eigen.RowMatrixXd;
  centers_no_zero : Eigen.RowMatrixXd;
  norm : Q;
  norm_no_zero : Q
}.

Record Optimization_values : Type := {
  found_cluster : Eigen.RowMatrixXd;
  found_cluster_no_zero : Eigen.RowMatrixXd;
  distances : Eigen.RowMatrixXd;
  distances_no_zero : Eigen.RowMatrixXd;
  opt_centers : list (list Eigen.RowMatrixXd)
}.

(** ** The member functions of [Clusterer] *)

Module Clusterer.

Import Eigen.
Local Open Scope clusterer_scope.

(** [((-X).rowwise() + c)]: the row [c] added to the negation of every row
    of [X]. *)
Definition neg_rowwise_plus (X : RowMatrixXd) (c : list Q) : RowMatrixXd :=
  map (fun x => vadd (map Qopp x) c) X.

(** The loop of [allocate_clusters] that collects the candidate centers. *)
Definition active_indices (mu : RowMatrixXd) (no_zero : bool) : list nat :=
  filter (fun i => if no_zero then negb (isZero (row mu i)) else true)
    (seq 0 (rows mu)).

(** The matrix [distances]: one row per point, one column per candidate. *)
Definition distance_matrix (X mu : RowMatrixXd) (active : list nat)
  : list (list surd) :=
  map (fun x => map (fun a => Sqrt (squaredNorm (vadd (map Qopp x) (row mu a))))
                 active) X.

Definition allocate_clusters (X mu : RowMatrixXd) (no_zero : bool)
  : VectorXi :=
  let active := active_indices mu no_zero in
  if (length active <? 2)%nat then ZeroXi (rows X)
  else map (fun d => nth (minCoeff surd_ltb d) active O)
         (distance_matrix X mu active).

(** The first loop of [reevaluate_centers]: row [i] of [X] is added to the
    row [inds(i)] of [centers], and [nums(inds(i))] is incremented. *)
Fixpoint accumulate (X : RowMatrixXd) (inds : VectorXi)
  (centers : RowMatrixXd) (nums : VectorXi) : RowMatrixXd * VectorXi :=
  match X, inds with
  | x :: X', l :: inds' =>
      accumulate X' inds' (update (fun c => vadd c x) l centers)
        (update S l nums)
  | _, _ => (centers, nums)
  end.

Definition reevaluate_centers (X : RowMatrixXd) (inds : VectorXi) (k : nat)
  (reg : Q) : RowMatrixXd :=
  let X_cols := cols X in
  let '(centers, nums) := accumulate X inds (Zero k X_cols) (ZeroXi k) in
  let n := fun i => inject_Z (Z.of_nat (nth i nums O)) in
  let mu_p :=
    map (fun i => map (fun c => (c - reg / 2) / n i) (row centers i))
      (seq 0 k) in
  let mu_n :=
    map (fun i => map (fun c => (c + reg / 2) / n i) (row centers i))
      (seq 0 k) in
  map (fun i => zip_with std_min (row mu_n i)
                  (map (fun c => std_max c 0) (row mu_p i)))
    (seq 0 k).

Definition cluster_norm (X centers : RowMatrixXd) (ind : VectorXi) (reg : Q)
  : Q :=
  let ssq :=
    fold_left
      (fun ssq i =>
         ssq + squaredNorm (vsub (row X i) (row centers (nth i ind O))))
      (seq 0 (rows X)) 0 in
  fold_left
    (fun ssq i =>
       fold_left (fun ssq j => ssq + coeff centers j i * reg)
         (seq 0 (rows centers)) ssq)
    (seq 0 (cols centers)) ssq.

Definition n_used_clusters (k : nat) (inds : VectorXi) : nat :=
  let population :=
    fold_left (fun p i => update (fun _ => 1%nat) (nth i inds O) p)
      (seq 0 (length inds)) (ZeroXi k) in
  fold_left Nat.add population O.

(** The regularisation handed to [reevaluate_centers] in iteration [i] of
    [find_centers]: [std::min(reg, reg*((float)i/(float)20))]. *)
Definition reg_schedule (reg : Q) (i : nat) : Q :=
  std_min reg (reg * (inject_Z (Z.of_nat i) / 20)).

Definition count_limit : nat := 1000.

(** The variables that the loop of [find_centers] updates. *)
Record loop_state : Type := {
  mu : RowMatrixXd;
  mu_ind : VectorXi;
  mu_ind_old : VectorXi
}.

(** How the loop was left: by [break] in iteration [i], or because the
    counter reached [count_limit]. *)
Inductive loop_exit : Type :=
| Converged (i : nat)
| IterationLimit.

Section FindCentersLoop.

Variables (X : RowMatrixXd) (k : nat) (reg : Q) (no_zero : bool).

(** One iteration of the loop, with counter [i]: [inr] is the [break]. *)
Definition loop_body (i : nat) (st : loop_state)
  : loop_state + loop_state :=
  let mu_ind' := allocate_clusters X (mu st) no_zero in
  if veqb (mu_ind_old st) mu_ind' && (20 <? i)%nat then
    inr {| mu := mu st; mu_ind := mu_ind'; mu_ind_old := mu_ind_old st |}
  else
    inl {| mu := reevaluate_centers X mu_ind' k (reg_schedule reg i);
           mu_ind := mu_ind';
           mu_ind_old := mu_ind' |}.

(** [for (i; i < count_limit; i++)], [n] iterations being left. *)
Fixpoint loop (n i : nat) (st : loop_state) : loop_state * loop_exit :=
  match n with
  | O => (st, IterationLimit)
  | S n' =>
      match loop_body i st with
      | inr st' => (st', Converged i)
      | inl st' => loop n' (S i) st'
      end
  end.

End FindCentersLoop.

Section RandomSource.

(** [RAND_MAX] is a constant of the C library, and [rand_stream n] is the
    value of the [n]-th call of [std::rand()].  The coefficients of
    [Eigen::Matrix<unsigned int, ...>::Random()] are further values of
    the same stream, as Eigen draws them with [std::rand()]. *)
Variable RAND_MAX : Z.
Variable rand_stream : N -> Z.

Definition rand : M Z := fun pos => Ok (rand_stream pos, N.succ pos).

(** [r % n] for an unsigned [n]. *)
Definition modulo (r : Z) (n : nat) : M nat :=
  if (n =? 0)%nat then fail ModuloByZero
  else ret (Z.to_nat (r mod Z.of_nat n)).

(** A checked read of a row and a checked write of a row: the source does
    neither check, so a fault here is undefined behaviour there. *)
Definition get_row (X : RowMatrixXd) (i : nat) : M (list Q) :=
  match nth_error X i with
  | Some r => ret r
  | None => fail OutOfBounds
  end.

Definition set_row (mu : RowMatrixXd) (i : nat) (r : list Q)
  : M RowMatrixXd :=
  if (i <? rows mu)%nat then ret (update (fun _ => r) i mu)
  else fail OutOfBounds.

(** The first loop of [element_from_vector], from index [i] on. *)
Fixpoint cumulate (elements : VectorXd) (i : nat) (cum : Q)
  (map : StdMap.t) : Q * StdMap.t :=
  match elements with
  | [] => (cum, map)
  | e :: rest =>
      if Qltb 0 e then
        let cum' := cum + e in
        cumulate rest (S i) cum' (StdMap.set map cum' i)
      else cumulate rest (S i) cum map
  end.

Definition element_from_vector (elements : VectorXd) : M nat :=
  let '(cum, map) := cumulate elements O 0 [] in
  r <- rand ;;
  let x := (inject_Z r / inject_Z RAND_MAX) * cum in
  if Qltb x cum then
    match StdMap.upper_bound map x with
    | Some ret_ => ret ret_
    | None => fail EndDereferenced
    end
  else ret (StdMap.get map x).

(** [((-X).rowwise() + c).rowwise().squaredNorm()]. *)
Definition squared_distances (X : RowMatrixXd) (c : list Q) : VectorXd :=
  map squaredNorm (neg_rowwise_plus X c).

(** The loop of [initialize_mu], [n] iterations being left. *)
Fixpoint seed_loop (X : RowMatrixXd) (n i : nat) (mu : RowMatrixXd)
  (dists : VectorXd) : M RowMatrixXd :=
  match n with
  | O => ret mu
  | S n' =>
      let temp_dists := squared_distances X (row mu (i - 1)) in
      let dists' :=
        zip_with (fun d t => if Qltb t d then t else d) dists temp_dists in
      element_index <- element_from_vector dists' ;;
      x <- get_row X element_index ;;
      mu' <- set_row mu i x ;;
      seed_loop X n' (S i) mu' dists'
  end.

Definition initialize_mu (X : RowMatrixXd) (k : nat) : M RowMatrixXd :=
  let X_cols := cols X in
  let X_rows := rows X in
  let mu := Zero k X_cols in
  r <- rand ;;
  randi <- modulo r X_rows ;;
  x0 <- get_row X randi ;;
  mu <- set_row mu 0 x0 ;;
  let dists := squared_distances X (row mu 0) in
  element_index <- element_from_vector dists ;;
  x1 <- get_row X element_index ;;
  mu <- set_row mu 1 x1 ;;
  seed_loop X (k - 2) 2 mu dists.

Definition find_centers (Xin : RowMatrixXd) (k : nat) (reg : Q)
  (no_zero : bool) : M Return_values :=
  let rows_ := rows Xin in
  let X := Xin in
  mu0 <- initialize_mu X k ;;
  let '(st, _) :=
    loop X k reg no_zero count_limit 0
      {| mu := mu0; mu_ind := OnesXi rows_; mu_ind_old := ZeroXi rows_ |} in
  ret {| indexes := mu_ind st;
         centers := mu st;
         norm := cluster_norm X (mu st) (mu_ind st) reg;
         indexes_no_zero := mu_ind st;
         centers_no_zero := mu st;
         norm_no_zero := cluster_norm X (mu st) (mu_ind st) reg |}.

(** The populations of [cluster_distance]: the fraction of the points
    that carry each label. *)
Definition populations (c : VectorXi) (k intSize : nat) (size : Q)
  : VectorXd :=
  fold_left (fun p i => update (fun v => v + 1 / size) (nth i c O) p)
    (seq 0 intSize) (ZeroXd k).

(** One factor of [false1] and one factor of [false2]. *)
Definition same_rate (p : VectorXd) (size : Q) : Q :=
  sum (map (fun v => v * (v - 1 / size) * (size / (size - 1))) p).

Definition differ_rate (p : VectorXd) (size : Q) : Q :=
  sum (map (fun v => v * (1 - (v - 1 / size) * (size / (size - 1)))) p).

Definition indice_num : N := 10000.

(** [while (i == j)] draws a pair of random indices; [fuel] bounds the
    number of draws of one run of the loop. *)
Fixpoint draw_pair (fuel : nat) (intSize : nat) : M (nat * nat) :=
  match fuel with
  | O => fail FuelExhausted
  | S fuel' =>
      r0 <- rand ;;
      r1 <- rand ;;
      i <- modulo r0 intSize ;;
      j <- modulo r1 intSize ;;
      if (i =? j)%nat then draw_pair fuel' intSize else ret (i, j)
  end.

(** The update of [stability] for the pair [(i, j)]. *)
Definition agree (c1 c2 : VectorXi) (i j : nat) (stability : Q) : Q :=
  let c1i := nth i c1 O in
  let c1j := nth j c1 O in
  let c2i := nth i c2 O in
  let c2j := nth j c2 O in
  if (c1i =? c1j)%nat && (c2i =? c2j)%nat then stability + 1
  else if negb (c1i =? c1j)%nat && negb (c2i =? c2j)%nat then stability + 1
  else stability.

(** The loop over the [indice_num] pairs, [n] pairs being left. *)
Fixpoint stability_loop (fuel : nat) (c1 c2 : VectorXi) (intSize : nat)
  (n : nat) (stability : Q) : M Q :=
  match n with
  | O => ret stability
  | S n' =>
      ' (i, j) <- draw_pair fuel intSize ;;
      stability_loop fuel c1 c2 intSize n' (agree c1 c2 i j stability)
  end.

Definition chance (c1 c2 : VectorXi) (k : nat) : Q :=
  let intSize := length c1 in
  let size := inject_Z (Z.of_nat intSize) in
  let population1 := populations c1 k intSize size in
  let population2 := populations c2 k intSize size in
  let false1 := same_rate population1 size * same_rate population2 size in
  let false2 :=
    differ_rate population1 size * differ_rate population2 size in
  false1 + false2.

Definition cluster_distance (fuel : nat) (c1 c2 : VectorXi) (k : nat)
  : M Q :=
  let intSize := length c1 in
  stability <-
    stability_loop fuel c1 c2 intSize (N.to_nat indice_num) 0 ;;
  ret ((stability / inject_Z (Z.of_N indice_num) - chance c1 c2 k)
       / (1 - chance c1 c2 k)).

(** [bootstrap_data]: [Random(brows)] draws all the indices first. *)
Definition bootstrap_data (X : RowMatrixXd) (bootstrapSamples : nat)
  : M RowMatrixXd :=
  let brows := bootstrapSamples in
  let xrows := rows X in
  rand_inds <- mapM (fun _ => rand) (seq 0 brows) ;;
  mapM (fun r => rand_num <- modulo r xrows ;; ret (row X rand_num))
    rand_inds.

(** What the loops of [optimize_param] accumulate. *)
Record search_state : Type := {
  acc_distances : RowMatrixXd;
  acc_found_cluster : RowMatrixXd;
  acc_centers : list (list RowMatrixXd)
}.

(** [A(j, l) += v]. *)
Definition add_coeff (A : RowMatrixXd) (j l : nat) (v : Q) : RowMatrixXd :=
  update (update (fun c => c + v) l) j A.

(** Division of every coefficient by a scalar. *)
Definition scale_down (A : RowMatrixXd) (d : Q) : RowMatrixXd :=
  map (map (fun c => c / d)) A.

(** The body of the innermost loop of [optimize_param], for the cell
    [(j, l)] of the grid. *)
Definition grid_cell (fuel : nat) (X : RowMatrixXd)
  (k : list nat) (reg : VectorXd) (bootstrapSamples : nat)
  (j l : nat) (s : search_state) : M search_state :=
  b1 <- bootstrap_data X bootstrapSamples ;;
  b2 <- bootstrap_data X bootstrapSamples ;;
  let remove_zeros := true in
  ret1 <- find_centers b1 (nth j k O) (nth l reg 0) remove_zeros ;;
  ret2 <- find_centers b2 (nth j k O) (nth l reg 0) remove_zeros ;;
  let tempCenters :=
    [centers ret1; centers ret2; centers_no_zero ret1;
     centers_no_zero ret2] in
  let ind1 := allocate_clusters X (centers ret1) false in
  let ind2 := allocate_clusters X (centers ret2) false in
  let ind1_no_zero := allocate_clusters X (centers_no_zero ret1) true in
  let ind2_no_zero := allocate_clusters X (centers_no_zero ret2) true in
  d <- cluster_distance fuel ind1 ind2 (nth j k O) ;;
  let distances' := add_coeff (acc_distances s) j l d in
  let used1 := inject_Z (Z.of_nat (n_used_clusters (nth j k O) (indexes ret1))) in
  let used2 := inject_Z (Z.of_nat (n_used_clusters (nth j k O) (indexes ret2))) in
  let found_cluster' :=
    add_coeff (add_coeff (acc_found_cluster s) j l used1) j l used2 in
  ret {| acc_distances := distances';
         acc_found_cluster := found_cluster';
         acc_centers := acc_centers s ++ [tempCenters] |}.

Definition optimize_param (fuel : nat) (Xin : RowMatrixXd)
  (k : list nat) (reg : VectorXd) (iterations bootstrapSamples : nat)
  : M Optimization_values :=
  let X := Xin in
  let k_size := length k in
  let reg_size := length reg in
  s <-
    foldM
      (fun s _ =>
         foldM
           (fun s j =>
              foldM (fun s l => grid_cell fuel X k reg bootstrapSamples j l s)
                (seq 0 reg_size) s)
           (seq 0 k_size) s)
      (seq 0 iterations)
      {| acc_distances := Zero k_size reg_size;
         acc_found_cluster := Zero k_size reg_size;
         acc_centers := [] |} ;;
  let iterations_d := inject_Z (Z.of_nat iterations) in
  let iterations2_d :=
    inject_Z ((Z.of_nat iterations * 2) mod 2 ^ 32) in
  ret {| distances := scale_down (acc_distances s) iterations_d;
         distances_no_zero := scale_down (acc_distances s) iterations_d;
         found_cluster := scale_down (acc_found_cluster s) iterations2_d;
         found_cluster_no_zero :=
           scale_down (acc_found_cluster s) iterations2_d;
         opt_centers := acc_centers s |}.

End RandomSource.

End Clusterer.

(** * The vocabulary of the statements *)

Import Eigen Clusterer.

(** A center is a candidate when it is a row of [mu] and, if [no_zero] is
    set, when that row is not the zero vector. *)
Definition candidate (mu : RowMatrixXd) (no_zero : bool) (c : nat) : Prop :=
  (c < rows mu)%nat /\ (no_zero = true -> isZero (row mu c) = false).

Definition candidate_count (mu : RowMatrixXd) (no_zero : bool) : nat :=
  if no_zero then length (filter (fun r => negb (isZero r)) mu)
  else rows mu.

(** The Euclidean distance between a point and a center, a real number. *)
Definition euclidean_distance (x c : list Q) : R :=
  surd_val (Sqrt (squaredNorm (vsub x c))).

(** [k] is a key of the map [m]. *)
Definition has_key (m : StdMap.t) (k : Q) : Prop :=
  exists kv, In kv m /\ fst kv == k.

(** The rows of [X] that carry the label [l]. *)
Fixpoint assigned (X : RowMatrixXd) (inds : VectorXi) (l : nat) : RowMatrixXd :=
  match X, inds with
  | x :: X', i :: inds' =>
      if (i =? l)%nat then x :: assigned X' inds' l else assigned X' inds' l
  | _, _ => []
  end.

(** The sum of column [j] over some rows, and their number as a rational. *)
Definition column_sum (A : RowMatrixXd) (j : nat) : Q :=
  sum (map (fun r => nth j r 0) A).

Definition count (A : RowMatrixXd) : Q := inject_Z (Z.of_nat (length A)).

(** The arithmetic mean of column [j] over the rows labelled [l]. *)
Definition mean (X : RowMatrixXd) (inds : VectorXi) (l j : nat) : Q :=
  column_sum (assigned X inds l) j / count (assigned X inds l).

(** Every row of the matrix has [D] coefficients. *)
Definition width (D : nat) (A : RowMatrixXd) : Prop :=
  Forall (fun r => length r = D) A.

(** The center as the specification of the update words it, from the mean
    [m] of the label: [min(m + reg/2, max(m - reg/2, 0))]. *)
Definition mean_shifted_center (X : RowMatrixXd) (inds : VectorXi) (reg : Q)
  (l j : nat) : Q :=
  let m := mean X inds l j in
  Qmin (m + reg / 2) (Qmax (m - reg / 2) 0).

(** All the coefficients of the matrix are non-negative. *)
Definition nonnegative (A : RowMatrixXd) : Prop :=
  Forall (Forall (fun c => 0 <= c)) A.

Section Trajectory.

Variables (X : RowMatrixXd) (k : nat) (reg : Q) (no_zero : bool).
Variable mu0 : RowMatrixXd.

(** The centers at the start of iteration [i] and the labels computed in
    iteration [i], were the loop never left. *)
Fixpoint centers_at (i : nat) : RowMatrixXd :=
  match i with
  | O => mu0
  | S i' =>
      reevaluate_centers X (allocate_clusters X (centers_at i') no_zero) k
        (reg_schedule reg i')
  end.

Definition assignment_at (i : nat) : VectorXi :=
  allocate_clusters X (centers_at i) no_zero.

(** Iteration [i] finds the labels of iteration [i - 1] again, and [i] is
    beyond 20. *)
Definition stable_at (i : nat) : Prop :=
  (20 < i)%nat /\ assignment_at i = assignment_at (i - 1).

(** The state in which iteration [i] starts. *)
Definition starts (i : nat) (st : loop_state) : Prop :=
  mu st = centers_at i
  /\ ((0 < i)%nat -> mu_ind_old st = assignment_at (i - 1)).

End Trajectory.

(** The number of iterations that the loop of [find_centers] has started
    when it is left. *)
Definition iterations_run (e : loop_exit) : nat :=
  match e with
  | Converged i => S i
  | IterationLimit => count_limit
  end.

(** Iteration [i] of the loop updates the centers in a run that is left
    with [e]: the loop is not left before the update of iteration [i]. *)
Definition updates_at (e : loop_exit) (i : nat) : Prop :=
  match e with
  | Converged c => (i < c)%nat
  | IterationLimit => (i < count_limit)%nat
  end.

(** A data set of two groups and a stray point, and a stream of values of
    [std::rand()], for the examples. *)
Definition example_data : RowMatrixXd :=
  [[0; 0]; [1; 0]; [8; 8]; [9; 8]; [0; 1]].

Definition example_stream (n : N) : Z :=
  (Z.of_N n * 1000000007 mod 2147483648)%Z.

(** The sum of the strictly positive elements among the first [n] elements
    of a vector: the lower end of the bucket of index [n] in
    [element_from_vector]. *)
Fixpoint positive_sum (elements : VectorXd) (n : nat) : Q :=
  match n, elements with
  | S n', e :: rest =>
      (if Qltb 0 e then e else 0) + positive_sum rest n'
  | _, _ => 0
  end.

(** The entries that the first loop of [element_from_vector] adds to the
    map, from index [i] on, the running sum being [cum]. *)
Fixpoint buckets_from (elements : VectorXd) (i : nat) (cum : Q) : StdMap.t :=
  match elements with
  | [] => []
  | e :: rest =>
      if Qltb 0 e then (cum + e, i) :: buckets_from rest (S i) (cum + e)
      else buckets_from rest (S i) cum
  end.

(** The within-cluster sum of squared distances, and the sum of all the
    coefficients of a matrix. *)
Definition sum_of_squares (X centers : RowMatrixXd) (ind : VectorXi) : Q :=
  sum (map (fun i => squaredNorm (vsub (row X i) (row centers (nth i ind O))))
         (seq 0 (rows X))).

Definition total_mass (A : RowMatrixXd) : Q := sum (map sum A).

(** The shape of the two accumulators of [optimize_param], and of the list
    of centers it collects: [K] rows of [R] coefficients, four matrices per
    grid cell visited. *)
Definition search_shape (K R n : nat) (s : search_state) : Prop :=
  rows (acc_distances s) = K /\ width R (acc_distances s)
  /\ rows (acc_found_cluster s) = K /\ width R (acc_found_cluster s)
  /\ length (acc_centers s) = n
  /\ Forall (fun t => length t = 4%nat) (acc_centers s).

(** * Properties of the embedded functions *)

(** ** Comparisons, minimum and maximum *)

Lemma Qltb_true (a b : Q) : Qltb a b = true <-> a < b.
Proof.
  unfold Qltb. rewrite negb_true_iff, <- not_true_iff_false, Qle_bool_iff.
  split; [apply Qnot_le_lt | apply Qlt_not_le].
Qed.

Lemma Qltb_false (a b : Q) : Qltb a b = false <-> b <= a.
Proof.
  unfold Qltb. rewrite negb_false_iff. apply Qle_bool_iff.
Qed.

Lemma std_min_Qmin (a b : Q) : std_min a b == Qmin a b.
Proof.
  unfold std_min. destruct (Qltb b a) eqn:E.
  - apply Qltb_true in E. symmetry. apply Q.min_r. lra.
  - apply Qltb_false in E. symmetry. apply Q.min_l. exact E.
Qed.

Lemma std_max_Qmax (a b : Q) : std_max a b == Qmax a b.
Proof.
  unfold std_max. destruct (Qltb a b) eqn:E.
  - apply Qltb_true in E. symmetry. apply Q.max_r. lra.
  - apply Qltb_false in E. symmetry. apply Q.max_l. exact E.
Qed.

(** ** The candidate centers of [allocate_clusters] *)

Lemma active_indices_candidate (mu : RowMatrixXd) (no_zero : bool) (c : nat) :
  In c (active_indices mu no_zero) <-> candidate mu no_zero c.
Proof.
  unfold active_indices, candidate. rewrite filter_In, in_seq.
  destruct no_zero; rewrite ?negb_true_iff; intuition (auto; lia).
Qed.

Lemma filter_seq_nth {A : Type} (f : A -> bool) (d : A) (l : list A) (s : nat) :
  length (filter (fun i => f (nth (i - s) l d)) (seq s (length l)))
  = length (filter f l).
Proof.
  revert s. induction l as [|x l IH]; intro s; [reflexivity|].
  cbn [length seq filter]. rewrite Nat.sub_diag.
  change (nth 0 (x :: l) d) with x.
  assert (E : filter (fun i => f (nth (i - s) (x :: l) d)) (seq (S s) (length l))
              = filter (fun i => f (nth (i - S s) l d)) (seq (S s) (length l))).
  { apply filter_ext_in. intros i Hi. apply in_seq in Hi.
    replace (i - s)%nat with (S (i - S s)) by lia. reflexivity. }
  rewrite E. destruct (f x); cbn [length]; rewrite IH; reflexivity.
Qed.

Lemma active_indices_length (mu : RowMatrixXd) (no_zero : bool) :
  length (active_indices mu no_zero) = candidate_count mu no_zero.
Proof.
  unfold active_indices, candidate_count, rows. destruct no_zero.
  - rewrite <- (filter_seq_nth (fun r => negb (isZero r)) [] mu 0).
    f_equal. apply filter_ext. intro i. unfold row. now rewrite Nat.sub_0_r.
  - assert (H : forall l : list nat, filter (fun _ => true) l = l).
    { induction l as [|a l IH]; cbn; congruence. }
    cbv beta iota. rewrite H. apply length_seq.
Qed.

(** The candidates are listed by increasing index. *)
Lemma filter_seq_increasing (f : nat -> bool) (n s p q : nat) :
  (p < q)%nat -> (q < length (filter f (seq s n)))%nat ->
  (nth p (filter f (seq s n)) O < nth q (filter f (seq s n)) O)%nat.
Proof.
  revert s p q. induction n as [|n IH]; intros s p q Hpq Hq; cbn in Hq; [lia|].
  cbn [seq filter] in *. destruct (f s).
  - destruct q as [|q]; [lia|]. cbn [length] in Hq. destruct p as [|p].
    + cbn [nth].
      assert (Hin : In (nth q (filter f (seq (S s) n)) O) (filter f (seq (S s) n)))
        by (apply nth_In; lia).
      apply filter_In in Hin. destruct Hin as [Hin _].
      apply in_seq in Hin. lia.
    + cbn [nth]. apply IH; lia.
  - apply IH; assumption.
Qed.

(** ** Sums of rationals *)

Lemma fold_left_Qplus_compat (l l' : list Q) (a a' : Q) :
  Forall2 Qeq l l' -> a == a' ->
  fold_left Qplus l a == fold_left Qplus l' a'.
Proof.
  intro H. revert a a'.
  induction H as [|x y l l' Hxy _ IH]; intros a a' Ha; cbn; [exact Ha|].
  apply IH. now rewrite Ha, Hxy.
Qed.

Lemma fold_left_Qplus_acc (l : list Q) (a : Q) :
  fold_left Qplus l a == a + sum l.
Proof.
  unfold sum. revert a. induction l as [|x l IH]; intro a; cbn.
  - ring.
  - rewrite IH, (IH (0 + x)). ring.
Qed.

Lemma sum_cons (x : Q) (l : list Q) : sum (x :: l) == x + sum l.
Proof.
  unfold sum at 1. cbn. rewrite fold_left_Qplus_acc. ring.
Qed.

Lemma sum_nonneg (l : list Q) : Forall (fun x => 0 <= x) l -> 0 <= sum l.
Proof.
  induction 1 as [|x l Hx _ IH]; [unfold sum; cbn; lra|].
  rewrite sum_cons. lra.
Qed.

Lemma squaredNorm_nonneg (v : list Q) : 0 <= squaredNorm v.
Proof.
  unfold squaredNorm. apply sum_nonneg, Forall_forall.
  intros y Hy. apply in_map_iff in Hy. destruct Hy as [x [<- _]]. nra.
Qed.

(** The squared norm that the code computes, [(-x + c).squaredNorm()], is
    the squared Euclidean distance between [x] and [c]. *)
Lemma squaredNorm_neg_plus (x c : list Q) :
  squaredNorm (vadd (map Qopp x) c) == squaredNorm (vsub x c).
Proof.
  unfold squaredNorm, sum. apply fold_left_Qplus_compat; [|reflexivity].
  unfold vadd, vsub. revert c.
  induction x as [|a x IH]; intros [|b c]; cbn; constructor.
  - ring.
  - apply IH.
Qed.

(** ** [minCoeff] returns the position of the first minimum *)

Lemma minCoeff_from_spec (d : surd) (v : list surd) :
  forall (best_index : nat) (best : surd) (i : nat),
    let r := minCoeff_from surd_ltb best_index best i v in
    (r = best_index /\ Forall (fun x => radicand best <= radicand x) v)
    \/ (exists j, (j < length v)%nat /\ r = (i + j)%nat
          /\ radicand (nth j v d) < radicand best
          /\ Forall (fun x => radicand (nth j v d) <= radicand x) v
          /\ forall j', (j' < j)%nat ->
               radicand (nth j v d) < radicand (nth j' v d)).
Proof.
  induction v as [|x v IH]; intros bi best i; cbn zeta.
  - left. split; [reflexivity | constructor].
  - cbn [minCoeff_from].
    destruct (surd_ltb x best) eqn:E; unfold surd_ltb in E.
    + apply Qltb_true in E.
      destruct (IH i x (S i)) as [[Hr Hall] | [j [Hj [Hr [Hlt [Hall Hfirst]]]]]].
      * right. exists O. cbn [nth length]. split; [|split; [|split; [|split]]].
        -- lia.
        -- rewrite Hr. lia.
        -- exact E.
        -- constructor; [lra | exact Hall].
        -- intros j' Hj'. lia.
      * right. exists (S j). cbn [nth length]. split; [|split; [|split; [|split]]].
        -- lia.
        -- rewrite Hr. lia.
        -- lra.
        -- constructor; [lra | exact Hall].
        -- intros [|j'] Hj'; cbn [nth]; [exact Hlt | apply Hfirst; lia].
    + apply Qltb_false in E.
      destruct (IH bi best (S i)) as [[Hr Hall] | [j [Hj [Hr [Hlt [Hall Hfirst]]]]]].
      * left. split; [exact Hr | constructor; assumption].
      * right. exists (S j). cbn [nth length]. split; [|split; [|split; [|split]]].
        -- lia.
        -- rewrite Hr. lia.
        -- exact Hlt.
        -- constructor; [lra | exact Hall].
        -- intros [|j'] Hj'; cbn [nth]; [lra | apply Hfirst; lia].
Qed.

Lemma minCoeff_spec (d : surd) (v : list surd) :
  v <> [] ->
  let m := minCoeff surd_ltb v in
  (m < length v)%nat
  /\ (forall j, (j < length v)%nat ->
        radicand (nth m v d) <= radicand (nth j v d))
  /\ (forall j, (j < m)%nat -> radicand (nth m v d) < radicand (nth j v d)).
Proof.
  destruct v as [|x v]; [congruence|]. intros _. cbn [minCoeff].
  destruct (minCoeff_from_spec d v O x 1%nat)
    as [[Hr Hall] | [j [Hj [Hr [Hlt [Hall Hfirst]]]]]]; cbn zeta; rewrite Hr.
  - cbn [nth length]. split; [|split]; [lia | | lia].
    intros [|j] Hj; cbn [nth]; [lra|].
    rewrite Forall_forall in Hall. apply Hall, nth_In. lia.
  - cbn [Nat.add nth length]. split; [|split]; [lia | |].
    + intros [|j'] Hj'; cbn [nth]; [lra|].
      rewrite Forall_forall in Hall. apply Hall, nth_In. lia.
    + intros [|j'] Hj'; cbn [nth]; [exact Hlt | apply Hfirst; lia].
Qed.

(** ** Allocator *)

Lemma euclidean_distance_le (x a c : list Q) :
  squaredNorm (vadd (map Qopp x) a) <= squaredNorm (vadd (map Qopp x) c) ->
  (euclidean_distance x a <= euclidean_distance x c)%R.
Proof.
  rewrite !squaredNorm_neg_plus. intro H.
  unfold euclidean_distance, surd_val. cbn [radicand].
  apply sqrt_le_1_alt, Qle_Rle, H.
Qed.

Lemma euclidean_distance_lt (x a c : list Q) :
  squaredNorm (vadd (map Qopp x) a) < squaredNorm (vadd (map Qopp x) c) ->
  (euclidean_distance x a < euclidean_distance x c)%R.
Proof.
  rewrite !squaredNorm_neg_plus. intro H.
  unfold euclidean_distance, surd_val. cbn [radicand].
  apply sqrt_lt_1_alt. split.
  - rewrite <- RMicromega.Q2R_0. apply Qle_Rle, squaredNorm_nonneg.
  - apply Qlt_Rlt, H.
Qed.

(** The label that [allocate_clusters] gives to a point [x] when at least
    two candidates are left. *)
Lemma allocate_clusters_nth (X mu : RowMatrixXd) (no_zero : bool) (j : nat) :
  (2 <= candidate_count mu no_zero)%nat -> (j < rows X)%nat ->
  let active := active_indices mu no_zero in
  nth j (allocate_clusters X mu no_zero) O
  = nth (minCoeff surd_ltb
           (map (fun a => Sqrt (squaredNorm (vadd (map Qopp (row X j)) (row mu a))))
              active)) active O.
Proof.
  intros Hc Hj active. unfold allocate_clusters. fold active.
  rewrite <- active_indices_length in Hc. fold active in Hc.
  destruct (Nat.ltb_spec (length active) 2) as [Hlt|_]; [lia|].
  unfold distance_matrix. rewrite map_map.
  rewrite (nth_indep _ O
             ((fun x => nth (minCoeff surd_ltb
                 (map (fun a => Sqrt (squaredNorm (vadd (map Qopp x) (row mu a))))
                    active)) active O) []))
    by (rewrite length_map; exact Hj).
  rewrite (map_nth (fun x => nth (minCoeff surd_ltb
                 (map (fun a => Sqrt (squaredNorm (vadd (map Qopp x) (row mu a))))
                    active)) active O)).
  reflexivity.
Qed.

(** C7.  Degenerate fallback of the allocator: when fewer than two candidate
    centers are left (all the centers, or the non-zero ones when [no_zero] is
    set), [allocate_clusters] returns the zero vector of length [N], the
    number of rows of [X]: every point gets the label 0. *)
Theorem allocate_clusters_degenerate (X mu : RowMatrixXd) (no_zero : bool) :
  (candidate_count mu no_zero < 2)%nat ->
  allocate_clusters X mu no_zero = repeat O (rows X).
Proof.
  intro H. unfold allocate_clusters.
  rewrite active_indices_length.
  destruct (Nat.ltb_spec (candidate_count mu no_zero) 2) as [_|Hge]; [|lia].
  reflexivity.
Qed.

Lemma allocate_clusters_degenerate_witness :
  allocate_clusters [[1; 2]; [3; 4]; [5; 6]] [[0; 0]; [5; 5]; [0; 0]] true
  = [O; O; O].
Proof.
  apply (allocate_clusters_degenerate
           [[1; 2]; [3; 4]; [5; 6]] [[0; 0]; [5; 5]; [0; 0]] true).
  vm_compute. lia.
Defined.

(** C6.  With at least two candidate centers, the label of the point in row
    [j] of [X] is a candidate center at minimal Euclidean distance from the
    point, and among the candidates at that same distance it is the one of
    lowest index. *)
Theorem allocate_clusters_nearest (X mu : RowMatrixXd) (no_zero : bool)
  (j : nat) :
  (2 <= candidate_count mu no_zero)%nat -> (j < rows X)%nat ->
  let a := nth j (allocate_clusters X mu no_zero) O in
  candidate mu no_zero a
  /\ (forall c, candidate mu no_zero c ->
        (euclidean_distance (row X j) (row mu a)
         <= euclidean_distance (row X j) (row mu c))%R)
  /\ (forall c, candidate mu no_zero c ->
        euclidean_distance (row X j) (row mu c)
        = euclidean_distance (row X j) (row mu a) ->
        (a <= c)%nat).
Proof.
  intros Hc Hj a. subst a. rewrite allocate_clusters_nth by assumption.
  cbn zeta. set (active := active_indices mu no_zero).
  set (h := fun a => Sqrt (squaredNorm (vadd (map Qopp (row X j)) (row mu a)))).
  assert (Hlen : (2 <= length active)%nat)
    by (unfold active; rewrite active_indices_length; exact Hc).
  assert (Hne : map h active <> [])
    by (destruct active; [cbn in Hlen; lia | discriminate]).
  destruct (minCoeff_spec (h O) (map h active) Hne) as [Hm [Hmin Hfirst]].
  set (m := minCoeff surd_ltb (map h active)) in *.
  rewrite length_map in Hm, Hmin.
  assert (Hnth : forall p, nth p (map h active) (h O) = h (nth p active O))
    by (intro p; apply map_nth).
  rewrite Hnth in Hmin, Hfirst.
  split; [|split].
  - apply active_indices_candidate. apply nth_In. exact Hm.
  - intros c Hcand. apply active_indices_candidate in Hcand.
    destruct (In_nth _ _ O Hcand) as [p [Hp <-]].
    apply euclidean_distance_le. specialize (Hmin p Hp).
    rewrite Hnth in Hmin. exact Hmin.
  - intros c Hcand Heq. apply active_indices_candidate in Hcand.
    destruct (In_nth _ _ O Hcand) as [p [Hp Hpc]].
    destruct (Nat.lt_trichotomy p m) as [Hlt | [-> | Hgt]].
    + specialize (Hfirst p Hlt). rewrite Hnth in Hfirst.
      apply euclidean_distance_lt in Hfirst. fold active in Hpc.
      rewrite Hpc in Hfirst. rewrite Heq in Hfirst.
      exfalso. exact (Rlt_irrefl _ Hfirst).
    + fold active in Hpc. rewrite Hpc. lia.
    + pose proof (filter_seq_increasing _ _ _ _ _ Hgt Hp) as Hinc.
      fold (active_indices mu no_zero) in Hinc. fold active in Hinc, Hpc.
      rewrite Hpc in Hinc. lia.
Qed.

(** The symmetric case: one point halfway between two centers goes to the
    first. *)
Example allocate_clusters_tie :
  allocate_clusters [[2; 0]] [[0; 0]; [4; 0]] false = [O].
Proof. reflexivity. Qed.

Lemma allocate_clusters_nearest_witness :
  let X := [[2; 0]] in
  let mu := [[0; 0]; [4; 0]] in
  let a := nth O (allocate_clusters X mu false) O in
  candidate mu false a
  /\ (forall c, candidate mu false c ->
        (euclidean_distance (row X O) (row mu a)
         <= euclidean_distance (row X O) (row mu c))%R)
  /\ (forall c, candidate mu false c ->
        euclidean_distance (row X O) (row mu c)
        = euclidean_distance (row X O) (row mu a) ->
        (a <= c)%nat).
Proof.
  apply (allocate_clusters_nearest [[2; 0]] [[0; 0]; [4; 0]] false O).
  - vm_compute. lia.
  - vm_compute. lia.
Defined.

(** ** RandomSampler: [element_from_vector] *)

Lemma set_has_key (m : StdMap.t) (k : Q) (v : nat) :
  has_key (StdMap.set m k v) k.
Proof.
  induction m as [|[k' v'] m IH]; cbn.
  - exists (k, v). split; [now left | reflexivity].
  - destruct (k ?= k') eqn:E.
    + apply Qeq_alt in E. exists (k', v). split; [now left | now symmetry].
    + exists (k, v). split; [now left | reflexivity].
    + destruct IH as [kv [Hin Hk]]. exists kv. split; [now right | exact Hk].
Qed.

Lemma set_values (P : nat -> Prop) (m : StdMap.t) (k : Q) (v : nat) :
  P v -> Forall (fun kv => P (snd kv)) m ->
  Forall (fun kv => P (snd kv)) (StdMap.set m k v).
Proof.
  intros Hv. induction 1 as [|[k' v'] m Hkv Hm IH]; cbn.
  - constructor; [exact Hv | constructor].
  - destruct (k ?= k'); repeat (constructor; auto).
Qed.

Lemma upper_bound_found (m : StdMap.t) (k x : Q) :
  has_key m k -> x < k ->
  exists v, StdMap.upper_bound m x = Some v /\ In v (map snd m).
Proof.
  intros [kv [Hin Hk]] Hx.
  induction m as [|[k' v'] m IH]; [contradiction|]. cbn.
  destruct (Qltb x k') eqn:E.
  - exists v'. split; [reflexivity | now left].
  - apply Qltb_false in E. destruct Hin as [<- | Hin].
    + cbn in Hk. lra.
    + destruct (IH Hin) as [v [Hv Hvin]]. exists v. split; [exact Hv | now right].
Qed.

Lemma get_found (m : StdMap.t) (x : Q) :
  has_key m x -> In (StdMap.get m x) (map snd m).
Proof.
  intros [kv [Hin Hk]].
  induction m as [|[k' v'] m IH]; [contradiction|]. cbn.
  destruct (Qeq_bool x k') eqn:E; [now left|].
  destruct Hin as [<- | Hin].
  - cbn in Hk. symmetry in Hk. apply Qeq_bool_iff in Hk. congruence.
  - right. exact (IH Hin).
Qed.

(** What the first loop of [element_from_vector] leaves in [cum] and in the
    map: the values of the map are indices of positive elements, and as soon
    as one element is positive, [cum] is positive and is a key of the map. *)
Lemma cumulate_values (P : nat -> Prop) (rest : VectorXd) :
  forall (i : nat) (cum : Q) (m : StdMap.t),
    (forall j, (j < length rest)%nat -> 0 < nth j rest 0 -> P (i + j)%nat) ->
    Forall (fun kv => P (snd kv)) m ->
    Forall (fun kv => P (snd kv)) (snd (cumulate rest i cum m)).
Proof.
  induction rest as [|e rest IH]; intros i cum m HP Hm; [exact Hm|].
  cbn [cumulate].
  assert (HP' : forall j, (j < length rest)%nat -> 0 < nth j rest 0 ->
                          P (S i + j)%nat).
  { intros j Hj Hpos. replace (S i + j)%nat with (i + S j)%nat by lia.
    apply HP; [cbn; lia | exact Hpos]. }
  destruct (Qltb 0 e) eqn:E.
  - apply IH; [exact HP'|]. apply set_values; [|exact Hm].
    apply Qltb_true in E. replace i with (i + 0)%nat by lia.
    apply HP; [cbn; lia | exact E].
  - apply IH; assumption.
Qed.

Lemma cumulate_key (rest : VectorXd) :
  forall (i : nat) (cum : Q) (m : StdMap.t),
    let cm := cumulate rest i cum m in
    if existsb (Qltb 0) rest then cum < fst cm /\ has_key (snd cm) (fst cm)
    else cm = (cum, m).
Proof.
  induction rest as [|e rest IH]; intros i cum m; cbn zeta; [reflexivity|].
  cbn [cumulate existsb]. destruct (Qltb 0 e) eqn:E; cbn [orb].
  - apply Qltb_true in E.
    specialize (IH (S i) (cum + e) (StdMap.set m (cum + e) i)). cbn zeta in IH.
    destruct (existsb (Qltb 0) rest).
    + destruct IH as [Hlt Hkey]. split; [lra | exact Hkey].
    + rewrite IH. cbn [fst snd]. split; [lra | apply set_has_key].
  - apply IH.
Qed.

Lemma rand_fraction (RAND_MAX r : Z) :
  (0 < RAND_MAX)%Z -> (0 <= r <= RAND_MAX)%Z ->
  0 <= inject_Z r / inject_Z RAND_MAX <= 1.
Proof.
  intros Hmax [Hlo Hhi].
  assert (Hm : 0 < inject_Z RAND_MAX)
    by (change 0 with (inject_Z 0); rewrite <- Zlt_Qlt; exact Hmax).
  split.
  - apply Qle_shift_div_l; [exact Hm|]. rewrite Qmult_0_l.
    change 0 with (inject_Z 0). rewrite <- Zle_Qle. exact Hlo.
  - apply Qle_shift_div_r; [exact Hm|]. rewrite Qmult_1_l.
    rewrite <- Zle_Qle. exact Hhi.
Qed.

(** C5.  Weighted pick: when some weight is strictly positive, whatever value
    [std::rand()] returns (between 0 and [RAND_MAX]), [element_from_vector]
    returns the index of an element whose weight is strictly positive. *)
Theorem element_from_vector_positive (RAND_MAX : Z) (rand_stream : N -> Z)
  (elements : VectorXd) (pos : N) :
  (0 < RAND_MAX)%Z -> (0 <= rand_stream pos <= RAND_MAX)%Z ->
  (exists i, 0 < nth i elements 0) ->
  exists ret_,
    element_from_vector RAND_MAX rand_stream elements pos
    = Ok (ret_, N.succ pos)
    /\ (ret_ < length elements)%nat
    /\ 0 < nth ret_ elements 0.
Proof.
  intros Hmax Hr [i0 Hi0].
  set (P := fun v => (v < length elements)%nat /\ 0 < nth v elements 0).
  assert (Hex : existsb (Qltb 0) elements = true).
  { apply existsb_exists. exists (nth i0 elements 0). split.
    - apply nth_In. destruct (Nat.lt_ge_cases i0 (length elements)) as [H|H];
        [exact H|]. rewrite nth_overflow in Hi0 by exact H. lra.
    - apply Qltb_true. exact Hi0. }
  pose proof (cumulate_values P elements O 0 []) as Hval.
  pose proof (cumulate_key elements O 0 []) as Hkey.
  cbn zeta in Hkey. rewrite Hex in Hkey.
  unfold element_from_vector.
  destruct (cumulate elements O 0 []) as [cum m]. cbn [fst snd] in *.
  destruct Hkey as [Hcum Hk].
  assert (Hm : Forall (fun kv => P (snd kv)) m).
  { apply Hval; [|constructor]. intros j Hj Hpos. split; assumption. }
  assert (HP : forall v, In v (map snd m) -> P v).
  { intros v Hv. apply in_map_iff in Hv. destruct Hv as [kv [<- Hin]].
    rewrite Forall_forall in Hm. exact (Hm kv Hin). }
  unfold bind, rand, ret.
  pose proof (rand_fraction RAND_MAX (rand_stream pos) Hmax Hr) as Hu.
  set (u := inject_Z (rand_stream pos) / inject_Z RAND_MAX) in *.
  destruct (Qltb (u * cum) cum) eqn:E.
  - apply Qltb_true in E.
    destruct (upper_bound_found m cum (u * cum) Hk E) as [v [-> Hv]].
    exists v. split; [reflexivity | exact (HP v Hv)].
  - apply Qltb_false in E.
    assert (Hx : u * cum == cum) by nra.
    exists (StdMap.get m (u * cum)). split; [reflexivity|].
    apply HP, get_found. destruct Hk as [kv [Hin Hkv]].
    exists kv. split; [exact Hin | now rewrite Hx].
Qed.

(** The weights [0, 5, 0, 5] with the draws 0, [RAND_MAX / 2] and
    [RAND_MAX]. *)
Example element_from_vector_0505_low :
  element_from_vector 2147483647 (fun _ => 0%Z) [0; 5; 0; 5] 0%N
  = Ok (1%nat, 1%N).
Proof. reflexivity. Qed.

Example element_from_vector_0505_mid :
  element_from_vector 2147483647 (fun _ => 1073741823%Z) [0; 5; 0; 5] 0%N
  = Ok (1%nat, 1%N).
Proof. reflexivity. Qed.

Example element_from_vector_0505_high :
  element_from_vector 2147483647 (fun _ => 2147483647%Z) [0; 5; 0; 5] 0%N
  = Ok (3%nat, 1%N).
Proof. reflexivity. Qed.

Lemma element_from_vector_positive_witness :
  exists ret_,
    element_from_vector 2147483647 (fun _ => 1073741824%Z) [0; 5; 0; 5] 0%N
    = Ok (ret_, N.succ 0)
    /\ (ret_ < length [0; 5; 0; 5])%nat
    /\ 0 < nth ret_ [0; 5; 0; 5] 0.
Proof.
  apply (element_from_vector_positive
           2147483647 (fun _ => 1073741824%Z) [0; 5; 0; 5] 0%N).
  - reflexivity.
  - cbv beta. lia.
  - exists 1%nat. reflexivity.
Defined.

(** ** Reads after writes *)

Lemma update_length {A : Type} (f : A -> A) (i : nat) (l : list A) :
  length (update f i l) = length l.
Proof.
  revert i. induction l as [|x l IH]; intros [|i]; cbn; auto.
Qed.

Lemma update_nth_same {A : Type} (f : A -> A) (i : nat) (l : list A) (d : A) :
  (i < length l)%nat -> nth i (update f i l) d = f (nth i l d).
Proof.
  revert i. induction l as [|x l IH]; intros [|i] H; cbn in *;
    try lia; [reflexivity | apply IH; lia].
Qed.

Lemma update_nth_other {A : Type} (f : A -> A) (i j : nat) (l : list A)
  (d : A) :
  i <> j -> nth j (update f i l) d = nth j l d.
Proof.
  revert i j. induction l as [|x l IH]; intros [|i] [|j] H; cbn;
    try reflexivity; try congruence. apply IH. congruence.
Qed.

Lemma zip_with_length (f : Q -> Q -> Q) (a b : list Q) :
  length a = length b -> length (zip_with f a b) = length a.
Proof.
  revert b. induction a as [|x a IH]; intros [|y b] H; cbn in *;
    try discriminate; [reflexivity | f_equal; apply IH; congruence].
Qed.

Lemma zip_with_nth (f : Q -> Q -> Q) (a b : list Q) (j : nat) (d : Q) :
  (j < length a)%nat -> (j < length b)%nat ->
  nth j (zip_with f a b) d = f (nth j a d) (nth j b d).
Proof.
  revert b j. induction a as [|x a IH]; intros [|y b] [|j] Ha Hb; cbn in *;
    try lia; [reflexivity | apply IH; lia].
Qed.

Lemma map_seq_nth {A : Type} (f : nat -> A) (k i : nat) (d : A) :
  (i < k)%nat -> nth i (map f (seq 0 k)) d = f i.
Proof.
  intro H. rewrite (nth_indep _ d (f O)) by (rewrite length_map, length_seq; exact H).
  rewrite map_nth, seq_nth by exact H. reflexivity.
Qed.

#[export] Instance std_min_proper : Proper (Qeq ==> Qeq ==> Qeq) std_min.
Proof.
  intros a a' Ha b b' Hb. unfold std_min.
  destruct (Qltb b a) eqn:E, (Qltb b' a') eqn:E';
    rewrite ?Qltb_true, ?Qltb_false in *; lra.
Qed.

#[export] Instance std_max_proper : Proper (Qeq ==> Qeq ==> Qeq) std_max.
Proof.
  intros a a' Ha b b' Hb. unfold std_max.
  destruct (Qltb a b) eqn:E, (Qltb a' b') eqn:E';
    rewrite ?Qltb_true, ?Qltb_false in *; lra.
Qed.

(** ** CenterUpdater: [reevaluate_centers] *)

Lemma width_row (D : nat) (A : RowMatrixXd) (i : nat) :
  width D A -> (i < rows A)%nat -> length (row A i) = D.
Proof.
  intros H Hi. unfold width in H. rewrite Forall_forall in H.
  apply H, nth_In, Hi.
Qed.

Lemma width_cols (D : nat) (A : RowMatrixXd) :
  width D A -> A <> [] -> cols A = D.
Proof.
  intros H Hne. destruct A as [|r A]; [congruence|].
  inversion H; assumption.
Qed.

Lemma width_update (D : nat) (A : RowMatrixXd) (i : nat) (x : list Q) :
  width D A -> length x = D -> width D (update (fun c => vadd c x) i A).
Proof.
  intros H Hx. revert i. induction H as [|r A Hr HA IH]; intros [|i]; cbn.
  - constructor.
  - constructor.
  - constructor; [|exact HA]. unfold vadd. rewrite zip_with_length; congruence.
  - constructor; [exact Hr | apply IH].
Qed.

(** The first loop of [reevaluate_centers] adds, to each row [l] of
    [centers], the sum of the rows of [X] labelled [l], and to [nums(l)]
    their number. *)
Lemma accumulate_spec (D : nat) (X : RowMatrixXd) :
  width D X ->
  forall (inds : VectorXi) (centers : RowMatrixXd) (nums : VectorXi),
    width D centers ->
    length X = length inds ->
    let cn := accumulate X inds centers nums in
    width D (fst cn) /\ length (fst cn) = length centers
    /\ length (snd cn) = length nums
    /\ (forall l j, (l < length centers)%nat -> (j < D)%nat ->
          coeff (fst cn) l j
          == coeff centers l j + column_sum (assigned X inds l) j)
    /\ (forall l, (l < length nums)%nat ->
          nth l (snd cn) O
          = (nth l nums O + length (assigned X inds l))%nat).
Proof.
  induction 1 as [|x X Hx HX IH]; intros inds centers nums Hc Hlen;
    destruct inds as [|i inds]; try discriminate; cbn zeta.
  - cbn [accumulate assigned fst snd length].
    split; [exact Hc|]. split; [reflexivity|]. split; [reflexivity|]. split.
    + intros l j _ _. change (column_sum [] j) with 0. ring.
    + intros l _. lia.
  - cbn [accumulate assigned].
    specialize (IH inds (update (fun c => vadd c x) i centers)
                  (update S i nums) (width_update D centers i x Hc Hx)).
    cbn zeta in IH. destruct IH as [Hw [Hl1 [Hl2 [Hsum Hnum]]]];
      [cbn in Hlen; congruence|].
    rewrite ?(update_length _ i centers), ?(update_length S i nums) in *.
    split; [exact Hw|]. split; [exact Hl1|]. split; [exact Hl2|]. split.
    + intros l j Hl Hj. rewrite (Hsum l j Hl Hj). unfold coeff, row.
      destruct (Nat.eqb_spec i l) as [->|Hne].
      * rewrite update_nth_same by exact Hl. unfold vadd.
        rewrite zip_with_nth.
        -- unfold column_sum. cbn [map]. rewrite sum_cons. ring.
        -- fold (row centers l). rewrite (width_row D) by assumption. exact Hj.
        -- rewrite Hx. exact Hj.
      * rewrite update_nth_other by exact Hne. reflexivity.
    + intros l Hl. rewrite (Hnum l Hl).
      destruct (Nat.eqb_spec i l) as [->|Hne].
      * rewrite update_nth_same by exact Hl. cbn [length]. lia.
      * rewrite update_nth_other by exact Hne. reflexivity.
Qed.

Lemma map_nth_lt {A B : Type} (g : A -> B) (l : list A) (j : nat) (d : A)
  (d' : B) :
  (j < length l)%nat -> nth j (map g l) d' = g (nth j l d).
Proof.
  intro H. rewrite (nth_indep _ d' (g d)) by (rewrite length_map; exact H).
  apply map_nth.
Qed.

Lemma coeff_Zero (k D l j : nat) :
  (l < k)%nat -> (j < D)%nat -> coeff (Zero k D) l j = 0.
Proof.
  intros Hl Hj. unfold coeff, row, Zero.
  rewrite nth_repeat_lt by exact Hl. apply nth_repeat_lt, Hj.
Qed.

Lemma width_Zero (k D : nat) : width D (Zero k D).
Proof.
  unfold width, Zero. apply Forall_forall. intros r Hr.
  apply repeat_spec in Hr. subst r. apply repeat_length.
Qed.

(** The coefficient [(l, j)] of the matrix that [reevaluate_centers] returns,
    from the sum [s] of column [j] over the rows labelled [l] and their
    number [n]. *)
Lemma reevaluate_centers_coeff (D : nat) (X : RowMatrixXd) (inds : VectorXi)
  (k : nat) (reg : Q) (l j : nat) :
  width D X -> cols X = D -> length X = length inds ->
  (l < k)%nat -> (j < D)%nat ->
  coeff (reevaluate_centers X inds k reg) l j
  == std_min
       ((column_sum (assigned X inds l) j + reg / 2) / count (assigned X inds l))
       (std_max
          ((column_sum (assigned X inds l) j - reg / 2)
           / count (assigned X inds l)) 0).
Proof.
  intros HX Hcols Hlen Hl Hj. unfold reevaluate_centers. rewrite Hcols.
  destruct (accumulate_spec D X HX inds (Zero k D) (ZeroXi k)
              (width_Zero k D) Hlen) as [Hw [Hl1 [Hl2 [Hsum Hnum]]]].
  destruct (accumulate X inds (Zero k D) (ZeroXi k)) as [centers nums].
  cbn [fst snd] in *.
  assert (Hk : length (Zero k D) = k) by apply repeat_length.
  assert (Hk' : length (ZeroXi k) = k) by apply repeat_length.
  rewrite Hk in *. rewrite Hk' in *.
  assert (Hrow : length (row centers l) = D)
    by (apply width_row; [exact Hw | unfold rows; lia]).
  unfold coeff at 1. unfold row at 1. rewrite map_seq_nth by exact Hl.
  unfold row at 1 3. rewrite !map_seq_nth by exact Hl.
  rewrite zip_with_nth by (rewrite ?length_map, Hrow; exact Hj).
  rewrite !(map_nth_lt _ _ _ 0) by (rewrite ?length_map, Hrow; exact Hj).
  fold (coeff centers l j).
  rewrite (Hsum l j Hl Hj), (Hnum l Hl), coeff_Zero by assumption.
  unfold ZeroXi. rewrite nth_repeat_lt by exact Hl. cbn [Nat.add].
  fold (count (assigned X inds l)).
  rewrite !Qplus_0_l. reflexivity.
Qed.

Lemma count_pos (A : RowMatrixXd) : A <> [] -> 0 < count A.
Proof.
  intro H. unfold count. change 0 with (inject_Z 0). rewrite <- Zlt_Qlt.
  destruct A; [congruence | cbn [length]; lia].
Qed.

Lemma assigned_nonempty (X : RowMatrixXd) (inds : VectorXi) (l : nat) :
  assigned X inds l <> [] -> X <> [].
Proof.
  destruct X; [cbn; congruence | discriminate].
Qed.

Lemma assigned_In (X : RowMatrixXd) (inds : VectorXi) (l : nat) (r : list Q) :
  In r (assigned X inds l) -> In r X.
Proof.
  revert inds. induction X as [|x X IH]; intros [|i inds] H; cbn in *;
    try contradiction.
  destruct (i =? l)%nat; [destruct H as [H|H]|]; eauto.
Qed.

(** With [reg = 0] the update is the arithmetic mean: the rows [[1, 2]] and
    [[3, 4]] give the center [[2, 3]]. *)
Example reevaluate_centers_mean :
  map (map Qred) (reevaluate_centers [[1; 2]; [3; 4]] [O; O] 1 0) = [[2; 3]].
Proof. reflexivity. Qed.

(** Two equal rows [[4]] with [reg = 2]: the code returns
    [(8 - 1) / 2 = 7/2], the mean shifted by [reg/2] is [3]. *)
Lemma reevaluate_centers_not_mean_shifted :
  let X := [[4]; [4]] in
  let inds := [O; O] in
  width 1 X /\ length X = length inds
  /\ (forall l, (l < 1)%nat -> assigned X inds l <> [])
  /\ 0 <= 2
  /\ coeff (reevaluate_centers X inds 1 2) 0 0 == 7 # 2
  /\ mean_shifted_center X inds 2 0 0 == 3
  /\ ~ coeff (reevaluate_centers X inds 1 2) 0 0
       == mean_shifted_center X inds 2 0 0.
Proof.
  cbn zeta. split; [repeat constructor|]. split; [reflexivity|].
  split; [intros [|l] Hl; [discriminate | lia]|].
  split; [discriminate|]. split; [reflexivity|]. split; [reflexivity|].
  intro H. vm_compute in H. discriminate.
Qed.

(** C1 (amended).  For a label [l < k] with at least one member, the new
    center is, coefficient by coefficient,
    [min((s + reg/2)/n, max((s - reg/2)/n, 0))], where [s] is the sum of the
    rows labelled [l] and [n] their number; in terms of the mean [m = s/n]
    this is [min(m + reg/(2n), max(m - reg/(2n), 0))]: the shift is [reg/2]
    divided by the size of the cluster. *)
Theorem reevaluate_centers_soft_threshold (D : nat) (X : RowMatrixXd)
  (inds : VectorXi) (k : nat) (reg : Q) (l j : nat) :
  width D X -> length X = length inds ->
  (l < k)%nat -> (j < D)%nat -> assigned X inds l <> [] ->
  let n := count (assigned X inds l) in
  let m := mean X inds l j in
  coeff (reevaluate_centers X inds k reg) l j
  == Qmin (m + reg / (2 * n)) (Qmax (m - reg / (2 * n)) 0).
Proof.
  intros HX Hlen Hl Hj Hne n m.
  pose proof (count_pos _ Hne) as Hn. fold n in Hn.
  assert (Hcols : cols X = D)
    by (apply width_cols; [exact HX | eapply assigned_nonempty, Hne]).
  rewrite (reevaluate_centers_coeff D X inds k reg l j HX Hcols Hlen Hl Hj).
  fold n. rewrite std_min_Qmin, std_max_Qmax.
  unfold m, mean. fold n.
  apply Q.min_compat; [field; lra|].
  apply Q.max_compat; [field; lra | reflexivity].
Qed.

Lemma reevaluate_centers_soft_threshold_witness :
  let X := [[4]; [4]] in
  let inds := [O; O] in
  coeff (reevaluate_centers X inds 1 2) 0 0
  == Qmin (mean X inds 0 0 + 2 / (2 * count (assigned X inds 0)))
       (Qmax (mean X inds 0 0 - 2 / (2 * count (assigned X inds 0))) 0).
Proof.
  apply (reevaluate_centers_soft_threshold 1 [[4]; [4]] [O; O] 1 2 0 0).
  - repeat constructor.
  - reflexivity.
  - lia.
  - lia.
  - discriminate.
Defined.

Lemma Qmult_pos_sign (n a : Q) : 0 < n -> (0 <= a <-> 0 <= a * n).
Proof.
  intro Hn. split; intro H.
  - apply Qmult_le_0_compat; lra.
  - destruct (Qlt_le_dec a 0) as [L|L]; [|exact L].
    assert (0 < (- a) * n) by (apply Qmult_lt_0_compat; lra). lra.
Qed.

Lemma column_sum_nonneg (A : RowMatrixXd) (j : nat) :
  nonnegative A -> 0 <= column_sum A j.
Proof.
  intro H. unfold column_sum. apply sum_nonneg, Forall_forall.
  intros y Hy. apply in_map_iff in Hy. destruct Hy as [r [<- Hr]].
  unfold nonnegative in H. rewrite Forall_forall in H. specialize (H r Hr).
  destruct (Nat.lt_ge_cases j (length r)) as [Hj|Hj].
  - rewrite Forall_forall in H. apply H, nth_In, Hj.
  - rewrite nth_overflow by exact Hj. lra.
Qed.

Lemma assigned_nonnegative (X : RowMatrixXd) (inds : VectorXi) (l : nat) :
  nonnegative X -> nonnegative (assigned X inds l).
Proof.
  unfold nonnegative. rewrite !Forall_forall. intros H r Hr.
  apply H. eapply assigned_In, Hr.
Qed.

(** One row [[-4]] with [reg = 0]: the code returns the center [[-4]]. *)
Lemma reevaluate_centers_negative_entry :
  let X := [[-4]] in
  let inds := [O] in
  width 1 X /\ length X = length inds
  /\ (forall l, (l < 1)%nat -> assigned X inds l <> [])
  /\ 0 <= 0
  /\ coeff (reevaluate_centers X inds 1 0) 0 0 == -4
  /\ ~ 0 <= coeff (reevaluate_centers X inds 1 0) 0 0.
Proof.
  cbn zeta. split; [repeat constructor|]. split; [reflexivity|].
  split; [intros [|l] Hl; [discriminate | lia]|].
  split; [discriminate|]. split; [reflexivity|].
  intro H. vm_compute in H. apply H. reflexivity.
Qed.

(** C2 (amended).  For [reg >= 0] and a label [l < k] with at least one
    member, the coefficient [(l, j)] of the new center matrix is
    non-negative exactly when the sum of column [j] over the rows labelled
    [l] is at least [- reg/2]; so it is non-negative whenever [X] has no
    negative coefficient. *)
Theorem reevaluate_centers_sign (D : nat) (X : RowMatrixXd) (inds : VectorXi)
  (k : nat) (reg : Q) (l j : nat) :
  width D X -> length X = length inds ->
  (l < k)%nat -> (j < D)%nat -> assigned X inds l <> [] -> 0 <= reg ->
  (0 <= coeff (reevaluate_centers X inds k reg) l j
   <-> - (reg / 2) <= column_sum (assigned X inds l) j)
  /\ (nonnegative X -> 0 <= coeff (reevaluate_centers X inds k reg) l j).
Proof.
  intros HX Hlen Hl Hj Hne Hreg.
  pose proof (count_pos _ Hne) as Hn.
  assert (Hcols : cols X = D)
    by (apply width_cols; [exact HX | eapply assigned_nonempty, Hne]).
  pose proof (reevaluate_centers_coeff D X inds k reg l j HX Hcols Hlen Hl Hj)
    as Hco.
  assert (Hh : 0 <= reg / 2)
    by (unfold Qdiv; change (/ 2) with (1 # 2); lra).
  set (h := reg / 2) in *.
  set (s := column_sum (assigned X inds l) j) in *.
  set (n := count (assigned X inds l)) in *.
  assert (Ha : ((s + h) / n) * n == s + h) by (field; lra).
  assert (Hb : ((s - h) / n) * n == s - h) by (field; lra).
  set (a := (s + h) / n) in *. set (b := (s - h) / n) in *.
  assert (Hiff : 0 <= coeff (reevaluate_centers X inds k reg) l j <-> - h <= s).
  { rewrite Hco. clearbody a b. clearbody s n h. clear Hco.
    assert (Hsa : 0 <= a <-> 0 <= s + h)
      by (rewrite <- Ha; apply Qmult_pos_sign; exact Hn).
    assert (Hba : 0 <= a - b).
    { apply (Qmult_pos_sign n); [exact Hn|].
      setoid_replace ((a - b) * n) with (a * n - b * n) by ring.
      rewrite Ha, Hb. lra. }
    unfold std_min, std_max.
    destruct (Qltb b 0) eqn:E1; rewrite ?Qltb_true, ?Qltb_false in E1.
    - destruct (Qltb 0 a) eqn:E2; rewrite ?Qltb_true, ?Qltb_false in E2;
        split; intro; lra.
    - destruct (Qltb b a) eqn:E2; rewrite ?Qltb_true, ?Qltb_false in E2;
        split; intro; lra. }
  split; [exact Hiff|].
  intro Hpos. apply Hiff.
  pose proof (column_sum_nonneg _ j (assigned_nonnegative X inds l Hpos)) as Hs.
  fold s in Hs. lra.
Qed.

Lemma reevaluate_centers_sign_witness :
  let X := [[1; 2]; [3; 4]] in
  let inds := [O; O] in
  (0 <= coeff (reevaluate_centers X inds 1 8) 0 1
   <-> - (8 / 2) <= column_sum (assigned X inds 0) 1)
  /\ (nonnegative X -> 0 <= coeff (reevaluate_centers X inds 1 8) 0 1).
Proof.
  apply (reevaluate_centers_sign 2 [[1; 2]; [3; 4]] [O; O] 1 8 0 1).
  - repeat constructor.
  - reflexivity.
  - lia.
  - lia.
  - discriminate.
  - discriminate.
Defined.

(** ** ClusterEngine: the loop of [find_centers] *)

Lemma veqb_eq (a b : VectorXi) : veqb a b = true <-> a = b.
Proof.
  revert b. induction a as [|x a IH]; intros [|y b]; cbn;
    try (split; [discriminate | discriminate]); [tauto|].
  rewrite andb_true_iff, Nat.eqb_eq, IH. split.
  - intros [-> ->]. reflexivity.
  - intro H. inversion H. auto.
Qed.

Section Iterations.

Variables (X : RowMatrixXd) (k : nat) (reg : Q) (no_zero : bool).
Variable mu0 : RowMatrixXd.

Lemma loop_body_spec (i : nat) (st : loop_state) :
  starts X k reg no_zero mu0 i st ->
  match loop_body X k reg no_zero i st with
  | inr st' =>
      stable_at X k reg no_zero mu0 i /\ mu st' = centers_at X k reg no_zero mu0 i /\ mu_ind st' = assignment_at X k reg no_zero mu0 i
  | inl st' =>
      ~ stable_at X k reg no_zero mu0 i /\ starts X k reg no_zero mu0 (S i) st' /\ mu_ind st' = assignment_at X k reg no_zero mu0 i
  end.
Proof.
  intros [Hmu Hold]. unfold loop_body. rewrite Hmu. fold (assignment_at X k reg no_zero mu0 i).
  destruct (veqb (mu_ind_old st) (assignment_at X k reg no_zero mu0 i) && (20 <? i)%nat) eqn:E.
  - apply andb_true_iff in E. destruct E as [E1 E2].
    apply veqb_eq in E1. apply Nat.ltb_lt in E2. cbn [mu mu_ind].
    split; [|split; reflexivity].
    split; [exact E2|]. rewrite <- Hold by lia. symmetry. exact E1.
  - cbn [mu mu_ind]. split; [|split; [split|reflexivity]].
    + intros [H20 Heq]. apply andb_false_iff in E. destruct E as [E|E].
      * apply not_true_iff_false in E. apply E, veqb_eq.
        rewrite Hold by lia. symmetry. exact Heq.
      * apply Nat.ltb_ge in E. lia.
    + cbn [mu centers_at]. reflexivity.
    + intros _. cbn [mu_ind_old]. now rewrite Nat.sub_succ, Nat.sub_0_r.
Qed.

Lemma loop_spec (n : nat) :
  forall (i : nat) (st : loop_state),
    starts X k reg no_zero mu0 i st ->
    match snd (loop X k reg no_zero n i st) with
    | Converged e =>
        (i <= e < i + n)%nat /\ stable_at X k reg no_zero mu0 e
        /\ (forall j, (i <= j < e)%nat -> ~ stable_at X k reg no_zero mu0 j)
        /\ mu (fst (loop X k reg no_zero n i st)) = centers_at X k reg no_zero mu0 e
        /\ mu_ind (fst (loop X k reg no_zero n i st)) = assignment_at X k reg no_zero mu0 e
    | IterationLimit =>
        (forall j, (i <= j < i + n)%nat -> ~ stable_at X k reg no_zero mu0 j)
        /\ mu (fst (loop X k reg no_zero n i st)) = centers_at X k reg no_zero mu0 (i + n)
        /\ ((0 < n)%nat ->
            mu_ind (fst (loop X k reg no_zero n i st))
            = assignment_at X k reg no_zero mu0 (i + n - 1))
    end.
Proof.
  induction n as [|n IH]; intros i st Hst.
  - cbn. split; [intros j Hj; lia|]. split; [|lia].
    rewrite Nat.add_0_r. exact (proj1 Hst).
  - cbn [loop]. pose proof (loop_body_spec i st Hst) as Hb.
    destruct (loop_body X k reg no_zero i st) as [st'|st'].
    + destruct Hb as [Hns [Hst' Hind]]. specialize (IH (S i) st' Hst').
      destruct (snd (loop X k reg no_zero n (S i) st')) as [e|] eqn:E.
      * destruct IH as [He [Hstab [Hfirst [Hmu Hmi]]]].
        split; [lia|]. split; [exact Hstab|]. split; [|split; assumption].
        intros j Hj. destruct (Nat.eq_dec j i) as [->|Hne];
          [exact Hns | apply Hfirst; lia].
      * destruct IH as [Hnone [Hmu Hmi]]. split; [|split].
        -- intros j Hj. destruct (Nat.eq_dec j i) as [->|Hne];
             [exact Hns | apply Hnone; lia].
        -- rewrite Hmu. f_equal. lia.
        -- intros _. destruct n as [|n].
           ++ cbn [loop fst]. rewrite Hind. f_equal. lia.
           ++ rewrite Hmi by lia. f_equal. lia.
    + cbn [fst snd]. destruct Hb as [Hstab [Hmu Hmi]].
      split; [lia|]. split; [exact Hstab|]. split; [|split; assumption].
      intros j Hj. lia.
Qed.

End Iterations.

(** The schedule of the regularisation: the minimum of [reg] and
    [reg * i/20], which for [reg >= 0] is 0 at 0 and [reg] from 20 on. *)
Lemma reg_schedule_min (reg : Q) (i : nat) :
  reg_schedule reg i == Qmin reg (reg * (inject_Z (Z.of_nat i) / 20)).
Proof. apply std_min_Qmin. Qed.

Lemma reg_schedule_start (reg : Q) : 0 <= reg -> reg_schedule reg 0 == 0.
Proof.
  intro Hreg. unfold reg_schedule.
  setoid_replace (reg * (inject_Z (Z.of_nat 0) / 20)) with 0
    by (cbn [Z.of_nat]; unfold Qdiv; ring).
  unfold std_min. destruct (Qltb 0 reg) eqn:E; [reflexivity|].
  apply Qltb_false in E. lra.
Qed.

Lemma reg_schedule_full (reg : Q) (i : nat) :
  0 <= reg -> (20 <= i)%nat -> reg_schedule reg i == reg.
Proof.
  intros Hreg Hi. unfold reg_schedule.
  assert (Ht : 1 <= inject_Z (Z.of_nat i) / 20).
  { apply Qle_shift_div_l; [reflexivity|]. rewrite Qmult_1_l.
    change 20 with (inject_Z 20). rewrite <- Zle_Qle. lia. }
  set (t := inject_Z (Z.of_nat i) / 20) in *. clearbody t.
  unfold std_min. destruct (Qltb (reg * t) reg) eqn:E; [|reflexivity].
  apply Qltb_true in E. nra.
Qed.

Section LoopPrefix.

Variables (X : RowMatrixXd) (k : nat) (reg : Q) (no_zero : bool).

(** An iteration that updates the centers leaves the labels it computed from
    the centers before it, and the centers updated from these labels with
    the regularisation of its counter. *)
Lemma loop_body_update (i : nat) (st st' : loop_state) :
  loop_body X k reg no_zero i st = inl st' ->
  mu_ind st' = allocate_clusters X (mu st) no_zero
  /\ mu st' = reevaluate_centers X (mu_ind st') k (reg_schedule reg i).
Proof.
  unfold loop_body.
  destruct (veqb (mu_ind_old st) (allocate_clusters X (mu st) no_zero)
            && (20 <? i)%nat); [discriminate|].
  intro H. injection H as <-. split; reflexivity.
Qed.

(** A loop that runs through [S n] iterations runs through [n]. *)
Lemma loop_limit_prefix (n : nat) :
  forall i st,
    snd (loop X k reg no_zero (S n) i st) = IterationLimit ->
    snd (loop X k reg no_zero n i st) = IterationLimit.
Proof.
  induction n as [|n IH]; intros i st H; [reflexivity|].
  change (loop X k reg no_zero (S (S n)) i st)
    with (match loop_body X k reg no_zero i st with
          | inr st' => (st', Converged i)
          | inl st' => loop X k reg no_zero (S n) (S i) st'
          end) in H.
  change (loop X k reg no_zero (S n) i st)
    with (match loop_body X k reg no_zero i st with
          | inr st' => (st', Converged i)
          | inl st' => loop X k reg no_zero n (S i) st'
          end).
  destruct (loop_body X k reg no_zero i st) as [st'|st']; [|discriminate].
  apply IH, H.
Qed.

(** The iteration after [n] iterations that did not leave the loop is the
    body at counter [i + n], on the state that they left. *)
Lemma loop_snoc (n : nat) :
  forall i st,
    snd (loop X k reg no_zero n i st) = IterationLimit ->
    loop X k reg no_zero (S n) i st
    = match loop_body X k reg no_zero (i + n)
              (fst (loop X k reg no_zero n i st)) with
      | inr st' => (st', Converged (i + n)%nat)
      | inl st' => (st', IterationLimit)
      end.
Proof.
  induction n as [|n IH]; intros i st H.
  - cbn [loop fst]. rewrite Nat.add_0_r. reflexivity.
  - change (loop X k reg no_zero (S (S n)) i st)
      with (match loop_body X k reg no_zero i st with
            | inr st' => (st', Converged i)
            | inl st' => loop X k reg no_zero (S n) (S i) st'
            end).
    change (loop X k reg no_zero (S n) i st)
      with (match loop_body X k reg no_zero i st with
            | inr st' => (st', Converged i)
            | inl st' => loop X k reg no_zero n (S i) st'
            end) in H |- *.
    destruct (loop_body X k reg no_zero i st) as [st'|st']; [|discriminate].
    rewrite (IH (S i) st' H). rewrite Nat.add_succ_r. reflexivity.
Qed.

(** A loop of [n + m] iterations whose first [n] do not leave it goes on
    with [m] iterations from counter [i + n]. *)
Lemma loop_split (n m : nat) :
  forall i st,
    snd (loop X k reg no_zero n i st) = IterationLimit ->
    loop X k reg no_zero (n + m) i st
    = loop X k reg no_zero m (i + n) (fst (loop X k reg no_zero n i st)).
Proof.
  induction n as [|n IH]; intros i st H.
  - cbn [loop fst Nat.add]. rewrite Nat.add_0_r. reflexivity.
  - change (loop X k reg no_zero (S n + m) i st)
      with (match loop_body X k reg no_zero i st with
            | inr st' => (st', Converged i)
            | inl st' => loop X k reg no_zero (n + m) (S i) st'
            end).
    change (loop X k reg no_zero (S n) i st)
      with (match loop_body X k reg no_zero i st with
            | inr st' => (st', Converged i)
            | inl st' => loop X k reg no_zero n (S i) st'
            end) in H |- *.
    destruct (loop_body X k reg no_zero i st) as [st'|st']; [|discriminate].
    rewrite (IH (S i) st' H). rewrite Nat.add_succ_r. reflexivity.
Qed.

(** A loop of [n + m] iterations that is not left in its first [n] does not
    leave a loop of [n] iterations either. *)
Lemma loop_exit_prefix (n m : nat) :
  forall i st,
    match snd (loop X k reg no_zero (n + m) i st) with
    | Converged c =>
        (i + n <= c)%nat -> snd (loop X k reg no_zero n i st) = IterationLimit
    | IterationLimit => snd (loop X k reg no_zero n i st) = IterationLimit
    end.
Proof.
  induction n as [|n IH]; intros i st.
  - destruct (snd (loop X k reg no_zero (0 + m) i st)); reflexivity.
  - change (loop X k reg no_zero (S n + m) i st)
      with (match loop_body X k reg no_zero i st with
            | inr st' => (st', Converged i)
            | inl st' => loop X k reg no_zero (n + m) (S i) st'
            end).
    change (loop X k reg no_zero (S n) i st)
      with (match loop_body X k reg no_zero i st with
            | inr st' => (st', Converged i)
            | inl st' => loop X k reg no_zero n (S i) st'
            end).
    destruct (loop_body X k reg no_zero i st) as [st'|st'].
    + specialize (IH (S i) st'). rewrite Nat.add_succ_r. exact IH.
    + cbn [snd]. intro Hle. lia.
Qed.

End LoopPrefix.

(** The schedule at a few iterations, for [reg = 8]. *)
Example reg_schedule_values :
  map (fun i => Qred (reg_schedule 8 i)) [0; 5; 10; 20; 21; 999]%nat
  = [0; 2; 4; 8; 8; 8].
Proof. reflexivity. Qed.

(** After the seeding, [find_centers] builds its result from the state in
    which the loop ends. *)
Lemma find_centers_after_seeding (RAND_MAX : Z) (rand_stream : N -> Z)
  (X : RowMatrixXd) (k : nat) (reg : Q) (no_zero : bool) (pos pos' : N)
  (mu0 : RowMatrixXd) :
  initialize_mu RAND_MAX rand_stream X k pos = Ok (mu0, pos') ->
  let st :=
    fst (loop X k reg no_zero count_limit 0
           {| mu := mu0; mu_ind := OnesXi (rows X);
              mu_ind_old := ZeroXi (rows X) |}) in
  find_centers RAND_MAX rand_stream X k reg no_zero pos
  = Ok ({| indexes := mu_ind st;
           indexes_no_zero := mu_ind st;
           centers := mu st;
           centers_no_zero := mu st;
           norm := cluster_norm X (mu st) (mu_ind st) reg;
           norm_no_zero := cluster_norm X (mu st) (mu_ind st) reg |}, pos').
Proof.
  intros Hseed st. unfold find_centers, bind. rewrite Hseed. subst st.
  destruct (loop X k reg no_zero count_limit 0 _) as [s x]. reflexivity.
Qed.

(** C3.  In a run of [find_centers], let iteration [i] of its loop, counted
    from 0, be one that updates the centers: the loop is not left at or
    before it.  Then the run of the whole loop passes through the state
    that the first [i + 1] iterations leave, and in this state the labels
    are those computed from the centers that the first [i] iterations left,
    and the centers are [reevaluate_centers] of these labels with the
    regularisation [reg_schedule reg i].  This value is
    [min(reg, reg * i/20)]; for a requested [reg >= 0] it is 0 in iteration 0
    and the full [reg] from iteration 20 on. *)
Theorem find_centers_regularisation (RAND_MAX : Z) (rand_stream : N -> Z)
  (X : RowMatrixXd) (k : nat) (reg : Q) (no_zero : bool) (pos pos' : N)
  (mu0 : RowMatrixXd) (i : nat) :
  initialize_mu RAND_MAX rand_stream X k pos = Ok (mu0, pos') ->
  let st0 :=
    {| mu := mu0; mu_ind := OnesXi (rows X); mu_ind_old := ZeroXi (rows X) |} in
  updates_at (snd (loop X k reg no_zero count_limit 0 st0)) i ->
  let before := fst (loop X k reg no_zero i 0 st0) in
  let after := fst (loop X k reg no_zero (S i) 0 st0) in
  let st := fst (loop X k reg no_zero (count_limit - S i) (S i) after) in
  find_centers RAND_MAX rand_stream X k reg no_zero pos
  = Ok ({| indexes := mu_ind st;
           indexes_no_zero := mu_ind st;
           centers := mu st;
           centers_no_zero := mu st;
           norm := cluster_norm X (mu st) (mu_ind st) reg;
           norm_no_zero := cluster_norm X (mu st) (mu_ind st) reg |}, pos')
  /\ loop X k reg no_zero count_limit 0 st0
     = loop X k reg no_zero (count_limit - S i) (S i) after
  /\ mu_ind after = allocate_clusters X (mu before) no_zero
  /\ mu after = reevaluate_centers X (mu_ind after) k (reg_schedule reg i)
  /\ reg_schedule reg i == Qmin reg (reg * (inject_Z (Z.of_nat i) / 20))
  /\ (0 <= reg -> i = O -> reg_schedule reg i == 0)
  /\ (0 <= reg -> (20 <= i)%nat -> reg_schedule reg i == reg).
Proof.
  intros Hseed st0 Hupd before after st.
  assert (Hst0 : starts X k reg no_zero mu0 0 st0)
    by (split; [reflexivity | intro H; inversion H]).
  assert (Hi : (S i <= count_limit)%nat).
  { pose proof (loop_spec X k reg no_zero mu0 count_limit 0 st0 Hst0) as Hloop.
    destruct (snd (loop X k reg no_zero count_limit 0 st0)) as [c|];
      cbn [updates_at] in Hupd; [|exact Hupd].
    destruct Hloop as [Hc _]. lia. }
  assert (Hsum : (S i + (count_limit - S i) = count_limit)%nat) by lia.
  assert (Hafter : snd (loop X k reg no_zero (S i) 0 st0) = IterationLimit).
  { pose proof (loop_exit_prefix X k reg no_zero (S i) (count_limit - S i)
                  0 st0) as Hp.
    rewrite Hsum in Hp.
    destruct (snd (loop X k reg no_zero count_limit 0 st0)) as [c|];
      cbn [updates_at] in Hupd; [|exact Hp].
    apply Hp. lia. }
  assert (Hbefore : snd (loop X k reg no_zero i 0 st0) = IterationLimit)
    by (apply loop_limit_prefix, Hafter).
  assert (Hrun : loop X k reg no_zero count_limit 0 st0
                 = loop X k reg no_zero (count_limit - S i) (S i) after).
  { rewrite <- Hsum at 1.
    exact (loop_split X k reg no_zero (S i) (count_limit - S i) 0 st0 Hafter). }
  assert (Hstep : mu_ind after = allocate_clusters X (mu before) no_zero
                  /\ mu after
                     = reevaluate_centers X (mu_ind after) k
                         (reg_schedule reg i)).
  { pose proof (loop_snoc X k reg no_zero i 0 st0 Hbefore) as Hs.
    change (0 + i)%nat with i in Hs. fold before in Hs.
    destruct (loop_body X k reg no_zero i before) as [st'|st'] eqn:Hbody.
    - subst after. rewrite Hs. cbn [fst].
      exact (loop_body_update X k reg no_zero i before st' Hbody).
    - rewrite Hs in Hafter. discriminate. }
  split; [|split; [exact Hrun|split; [exact (proj1 Hstep)|
           split; [exact (proj2 Hstep)|split; [|split]]]]].
  - pose proof (find_centers_after_seeding RAND_MAX rand_stream X k reg
                  no_zero pos pos' mu0 Hseed) as Hfc.
    cbv zeta in Hfc. fold st0 in Hfc. rewrite Hrun in Hfc. exact Hfc.
  - apply reg_schedule_min.
  - intros Hreg ->. apply reg_schedule_start, Hreg.
  - apply reg_schedule_full.
Qed.

(** On the example data with [reg = 1/2] the loop is left in iteration 21;
    iteration 20 is its last update, with the full [reg]. *)
Lemma find_centers_regularisation_witness :
  let st0 :=
    {| mu := [[0; 0]; [8; 8]; [0; 1]];
       mu_ind := OnesXi (rows example_data);
       mu_ind_old := ZeroXi (rows example_data) |} in
  let before := fst (loop example_data 3 (1 # 2) false 20 0 st0) in
  let after := fst (loop example_data 3 (1 # 2) false 21 0 st0) in
  initialize_mu 2147483647 example_stream example_data 3 0%N
  = Ok ([[0; 0]; [8; 8]; [0; 1]], 3%N)
  /\ updates_at
       (snd (loop example_data 3 (1 # 2) false count_limit 0 st0)) 20
  /\ mu_ind after = allocate_clusters example_data (mu before) false
  /\ mu after
     = reevaluate_centers example_data (mu_ind after) 3
         (reg_schedule (1 # 2) 20)
  /\ reg_schedule (1 # 2) 20 == 1 # 2.
Proof.
  intros st0 before after.
  assert (Hseed : initialize_mu 2147483647 example_stream example_data 3 0%N
                  = Ok ([[0; 0]; [8; 8]; [0; 1]], 3%N)) by reflexivity.
  assert (Hupd : updates_at
                   (snd (loop example_data 3 (1 # 2) false count_limit 0 st0))
                   20) by (vm_compute; lia).
  pose proof (find_centers_regularisation 2147483647 example_stream
                example_data 3 (1 # 2) false 0%N 3%N
                [[0; 0]; [8; 8]; [0; 1]] 20%nat Hseed Hupd)
    as (_ & _ & Hlabels & Hmu & _ & _ & Hfull).
  split; [exact Hseed|]. split; [exact Hupd|].
  split; [exact Hlabels|]. split; [exact Hmu|].
  apply Hfull; [discriminate | lia].
Defined.

(** C4.  Once the centers are seeded, [find_centers] returns a result in
    every case, after at most 1000 iterations of its loop.  The loop is left
    by [break] in iteration [i] exactly when
    [i] is the first iteration index, above 20 and below 1000, whose labels
    equal those of the iteration before; otherwise it ends after 1000
    iterations with the labels of iteration 999 and the centers updated
    1000 times, and the result is built from them all the same. *)
Theorem find_centers_iterations (RAND_MAX : Z) (rand_stream : N -> Z)
  (X : RowMatrixXd) (k : nat) (reg : Q) (no_zero : bool) (pos pos' : N)
  (mu0 : RowMatrixXd) :
  initialize_mu RAND_MAX rand_stream X k pos = Ok (mu0, pos') ->
  let st0 :=
    {| mu := mu0; mu_ind := OnesXi (rows X); mu_ind_old := ZeroXi (rows X) |} in
  let st := fst (loop X k reg no_zero count_limit 0 st0) in
  let e := snd (loop X k reg no_zero count_limit 0 st0) in
  let labels := assignment_at X k reg no_zero mu0 in
  find_centers RAND_MAX rand_stream X k reg no_zero pos
  = Ok ({| indexes := mu_ind st;
           indexes_no_zero := mu_ind st;
           centers := mu st;
           centers_no_zero := mu st;
           norm := cluster_norm X (mu st) (mu_ind st) reg;
           norm_no_zero := cluster_norm X (mu st) (mu_ind st) reg |}, pos')
  /\ (iterations_run e <= 1000)%nat
  /\ (forall i,
        e = Converged i
        <-> (20 < i < 1000)%nat /\ labels i = labels (i - 1)%nat
            /\ forall j, (20 < j < i)%nat -> labels j <> labels (j - 1)%nat)
  /\ (e = IterationLimit
      <-> forall j, (20 < j < 1000)%nat -> labels j <> labels (j - 1)%nat)
  /\ match e with
     | Converged i =>
         mu_ind st = labels i /\ mu st = centers_at X k reg no_zero mu0 i
     | IterationLimit =>
         mu_ind st = labels 999%nat
         /\ mu st = centers_at X k reg no_zero mu0 1000%nat
     end.
Proof.
  intros Hseed st0 st e labels.
  assert (Hst0 : starts X k reg no_zero mu0 0 st0)
    by (split; [reflexivity | intro H; inversion H]).
  pose proof (loop_spec X k reg no_zero mu0 count_limit 0 st0 Hst0) as Hloop.
  fold e st in Hloop. change (0 + count_limit)%nat with 1000%nat in Hloop.
  split; [|split; [|split; [|split]]].
  - exact (find_centers_after_seeding _ _ _ _ _ _ _ _ _ Hseed).
  - destruct e as [i|]; cbn [iterations_run]; [|reflexivity].
    destruct Hloop as [Hi _]. lia.
  - intro i. split.
    + intro He. rewrite He in Hloop.
      destruct Hloop as [Hi [[H20 Heq] [Hfirst _]]].
      split; [lia|]. split; [exact Heq|].
      intros j Hj Hjeq. apply (Hfirst j); [lia | split; [lia | exact Hjeq]].
    + intros [Hi [Heq Hfirst]]. destruct e as [i'|].
      * destruct Hloop as [Hi' [[H20 Heq'] [Hfirst' _]]].
        destruct (Nat.lt_trichotomy i i') as [Hlt | [-> | Hgt]].
        -- exfalso. apply (Hfirst' i); [lia | split; [lia | exact Heq]].
        -- reflexivity.
        -- exfalso. apply (Hfirst i'); [lia | exact Heq'].
      * destruct Hloop as [Hnone _].
        exfalso. apply (Hnone i); [lia | split; [lia | exact Heq]].
  - split.
    + intros He j Hj Hjeq. rewrite He in Hloop. destruct Hloop as [Hnone _].
      apply (Hnone j); [lia | split; [lia | exact Hjeq]].
    + intro Hnone. destruct e as [i|]; [|reflexivity].
      destruct Hloop as [Hi [[H20 Heq] _]].
      exfalso. apply (Hnone i); [lia | exact Heq].
  - destruct e as [i|].
    + destruct Hloop as [_ [_ [_ [Hmu Hmi]]]]. split; assumption.
    + destruct Hloop as [_ [Hmu Hmi]]. split; [|exact Hmu].
      rewrite Hmi by (unfold count_limit; lia). reflexivity.
Qed.

Example initialize_mu_example :
  initialize_mu 2147483647 example_stream example_data 3 0%N
  = Ok ([[0; 0]; [8; 8]; [0; 1]], 3%N).
Proof. reflexivity. Qed.

(** On this data the labels of iteration 21 equal those of iteration 20, and
    the loop is left there. *)
Example loop_example :
  snd (loop example_data 3 0 false count_limit 0
         {| mu := [[0; 0]; [8; 8]; [0; 1]];
            mu_ind := OnesXi 5;
            mu_ind_old := ZeroXi 5 |})
  = Converged 21.
Proof. vm_compute. reflexivity. Qed.

Lemma find_centers_iterations_witness :
  let st0 :=
    {| mu := [[0; 0]; [8; 8]; [0; 1]];
       mu_ind := OnesXi (rows example_data);
       mu_ind_old := ZeroXi (rows example_data) |} in
  let st := fst (loop example_data 3 0 false count_limit 0 st0) in
  find_centers 2147483647 example_stream example_data 3 0 false 0%N
  = Ok ({| indexes := mu_ind st;
           indexes_no_zero := mu_ind st;
           centers := mu st;
           centers_no_zero := mu st;
           norm := cluster_norm example_data (mu st) (mu_ind st) 0;
           norm_no_zero := cluster_norm example_data (mu st) (mu_ind st) 0 |},
        3%N).
Proof.
  refine (proj1 (find_centers_iterations 2147483647 example_stream
              example_data 3 0 false 0%N 3%N [[0; 0]; [8; 8]; [0; 1]] _)).
  vm_compute. reflexivity.
Defined.

(** ** StabilityMetric: [cluster_distance] *)



(** The fuel only bounds the search: a run that returns, returns the same
    with more fuel. *)
Lemma draw_pair_S (rand_stream : N -> Z) (fuel intSize : nat) (pos : N) :
  draw_pair rand_stream (S fuel) intSize pos
  = match modulo (rand_stream pos) intSize (N.succ (N.succ pos)) with
    | Ok (i, p) =>
        match modulo (rand_stream (N.succ pos)) intSize p with
        | Ok (j, p') =>
            (if (i =? j)%nat then draw_pair rand_stream fuel intSize
             else ret (i, j)) p'
        | Fault f => Fault f
        end
    | Fault f => Fault f
    end.
Proof. reflexivity. Qed.

Lemma draw_pair_fuel (rand_stream : N -> Z) (intSize : nat) (fuel : nat) :
  forall (pos : N) (r : nat * nat * N),
    draw_pair rand_stream fuel intSize pos = Ok r ->
    draw_pair rand_stream (S fuel) intSize pos = Ok r.
Proof.
  induction fuel as [|fuel IH]; intros pos r H; [discriminate|].
  rewrite draw_pair_S in H. rewrite draw_pair_S.
  destruct (modulo (rand_stream pos) intSize _) as [[i p]|f]; [|discriminate].
  destruct (modulo (rand_stream (N.succ pos)) intSize p) as [[j p']|f];
    [|discriminate].
  destruct (i =? j)%nat; [apply IH; exact H | exact H].
Qed.

Lemma stability_loop_fuel (rand_stream : N -> Z) (fuel : nat)
  (c1 c2 : VectorXi) (intSize n : nat) :
  forall (stability : Q) (pos : N) (r : Q * N),
    stability_loop rand_stream fuel c1 c2 intSize n stability pos = Ok r ->
    stability_loop rand_stream (S fuel) c1 c2 intSize n stability pos = Ok r.
Proof.
  induction n as [|n IH]; intros stability pos r H; [exact H|].
  cbn [stability_loop] in *. unfold bind in *.
  destruct (draw_pair rand_stream fuel intSize pos) as [[[i j] p]|f] eqn:E;
    [|discriminate].
  rewrite (draw_pair_fuel _ _ _ _ _ E). apply IH. exact H.
Qed.

Lemma cluster_distance_fuel (rand_stream : N -> Z) (fuel : nat)
  (c1 c2 : VectorXi) (k : nat) (pos : N) (r : Q * N) :
  cluster_distance rand_stream fuel c1 c2 k pos = Ok r ->
  cluster_distance rand_stream (S fuel) c1 c2 k pos = Ok r.
Proof.
  unfold cluster_distance, bind. intro H.
  destruct (stability_loop rand_stream fuel c1 c2 (length c1)
              (N.to_nat indice_num) 0 pos) as [[s p]|f] eqn:E; [|discriminate].
  rewrite (stability_loop_fuel _ _ _ _ _ _ _ _ _ E). exact H.
Qed.

(** One draw suffices when the two values of the stream differ modulo the
    number of points. *)
Lemma draw_pair_distinct (rand_stream : N -> Z) (fuel intSize : nat) (pos : N) :
  intSize <> O ->
  Z.to_nat (rand_stream pos mod Z.of_nat intSize)
  <> Z.to_nat (rand_stream (N.succ pos) mod Z.of_nat intSize) ->
  draw_pair rand_stream (S fuel) intSize pos
  = Ok ((Z.to_nat (rand_stream pos mod Z.of_nat intSize),
         Z.to_nat (rand_stream (N.succ pos) mod Z.of_nat intSize)),
        N.succ (N.succ pos)).
Proof.
  intros Hn Hd. rewrite draw_pair_S. unfold modulo.
  destruct (Nat.eqb_spec intSize 0) as [|_]; [contradiction|].
  unfold ret. apply Nat.eqb_neq in Hd. rewrite Hd. reflexivity.
Qed.



(** ** The two halves of the results *)

(** C9.  The fields for the trimmed run repeat the fields of the run that
    was executed: in every result of [find_centers], [indexes_no_zero],
    [centers_no_zero] and [norm_no_zero] equal [indexes], [centers] and
    [norm]; in every result of [optimize_param], [distances_no_zero] and
    [found_cluster_no_zero] equal [distances] and [found_cluster]. *)
Theorem no_zero_fields_equal (RAND_MAX : Z) (rand_stream : N -> Z) :
  (forall (X : RowMatrixXd) (k : nat) (reg : Q) (no_zero : bool)
          (pos pos' : N) (r : Return_values),
      find_centers RAND_MAX rand_stream X k reg no_zero pos = Ok (r, pos') ->
      indexes_no_zero r = indexes r
      /\ centers_no_zero r = centers r
      /\ norm_no_zero r = norm r)
  /\ (forall (fuel : nat) (X : RowMatrixXd) (k : list nat) (reg : VectorXd)
             (iterations bootstrapSamples : nat) (pos pos' : N)
             (o : Optimization_values),
         optimize_param RAND_MAX rand_stream fuel X k reg iterations
           bootstrapSamples pos = Ok (o, pos') ->
         distances_no_zero o = distances o
         /\ found_cluster_no_zero o = found_cluster o).
Proof.
  split.
  - intros X k reg no_zero pos pos' r H. unfold find_centers, bind in H.
    destruct (initialize_mu RAND_MAX rand_stream X k pos) as [[mu0 p]|f];
      [|discriminate].
    destruct (loop X k reg no_zero count_limit 0 _) as [st e].
    unfold ret in H. inversion H. cbn. auto.
  - intros fuel X k reg iterations bootstrapSamples pos pos' o H.
    unfold optimize_param, bind in H.
    destruct (foldM _ _ _ pos) as [[s p]|f]; [|discriminate].
    unfold ret in H. inversion H. cbn. auto.
Qed.

Lemma no_zero_fields_equal_witness :
  (exists r pos',
      find_centers 2147483647 example_stream example_data 3 (1 # 2) true 0%N
      = Ok (r, pos')
      /\ indexes_no_zero r = indexes r
      /\ centers_no_zero r = centers r
      /\ norm_no_zero r = norm r)
  /\ (exists o pos',
         optimize_param 2147483647 example_stream 64 example_data [2]%nat
           [1 # 2] 1 4 0%N = Ok (o, pos')
         /\ distances_no_zero o = distances o
         /\ found_cluster_no_zero o = found_cluster o).
Proof.
  split.
  - eexists. eexists. split; [vm_compute; reflexivity|].
    refine (proj1 (no_zero_fields_equal 2147483647 example_stream)
              example_data 3%nat (1 # 2) true 0%N _ _ _).
    vm_compute. reflexivity.
  - eexists. eexists. split; [vm_compute; reflexivity|].
    refine (proj2 (no_zero_fields_equal 2147483647 example_stream)
              64%nat example_data [2]%nat [1 # 2] 1%nat 4%nat 0%N _ _ _).
    vm_compute. reflexivity.
Defined.

(** ** Seeding: [initialize_mu] *)

Lemma modulo_Ok (r : Z) (n : nat) (pos : N) :
  n <> O ->
  exists v, modulo r n pos = Ok (v, pos) /\ (v < n)%nat.
Proof.
  intro Hn. unfold modulo. destruct (Nat.eqb_spec n 0) as [|_]; [contradiction|].
  eexists. split; [reflexivity|].
  pose proof (Z.mod_pos_bound r (Z.of_nat n)). lia.
Qed.

Lemma get_row_Ok (X : RowMatrixXd) (i : nat) (pos : N) :
  (i < rows X)%nat -> get_row X i pos = Ok (row X i, pos).
Proof.
  intro H. unfold get_row, row.
  rewrite (nth_error_nth' X [] H). reflexivity.
Qed.

Lemma set_row_Ok (A : RowMatrixXd) (i : nat) (r : list Q) (pos : N) :
  (i < rows A)%nat ->
  set_row A i r pos = Ok (update (fun _ => r) i A, pos).
Proof.
  intro H. unfold set_row. apply Nat.ltb_lt in H. rewrite H. reflexivity.
Qed.

Lemma set_row_Fault (A : RowMatrixXd) (i : nat) (r : list Q) (pos : N) :
  (rows A <= i)%nat -> set_row A i r pos = Fault OutOfBounds.
Proof.
  intro H. unfold set_row. apply Nat.ltb_ge in H. rewrite H. reflexivity.
Qed.

Lemma rows_Zero (k D : nat) : rows (Zero k D) = k.
Proof. apply repeat_length. Qed.

Lemma rows_update (f : list Q -> list Q) (i : nat) (A : RowMatrixXd) :
  rows (update f i A) = rows A.
Proof. apply update_length. Qed.

Lemma get_values_or_zero (m : StdMap.t) (x : Q) :
  In (StdMap.get m x) (map snd m) \/ StdMap.get m x = O.
Proof.
  induction m as [|[k' v'] m IH]; cbn; [now right|].
  destruct (Qeq_bool x k'); [left; now left|].
  destruct IH as [IH|IH]; [left; now right | now right].
Qed.

(** [element_from_vector] never dereferences [end()], and on a vector that
    is not empty it returns one of its indices, whatever the draw. *)
Lemma element_from_vector_total (RAND_MAX : Z) (rand_stream : N -> Z)
  (elements : VectorXd) (pos : N) :
  elements <> [] ->
  exists v,
    element_from_vector RAND_MAX rand_stream elements pos = Ok (v, N.succ pos)
    /\ (v < length elements)%nat.
Proof.
  intro Hne.
  assert (Hlen : (0 < length elements)%nat)
    by (destruct elements; [congruence | cbn; lia]).
  pose proof (cumulate_values (fun v => (v < length elements)%nat)
                elements O 0 []) as Hval.
  pose proof (cumulate_key elements O 0 []) as Hkey. cbn zeta in Hkey.
  unfold element_from_vector.
  destruct (cumulate elements O 0 []) as [cum m]. cbn [fst snd] in *.
  assert (Hm : Forall (fun kv => (snd kv < length elements)%nat) m)
    by (apply Hval; [intros; lia | constructor]).
  assert (HP : forall v, In v (map snd m) -> (v < length elements)%nat).
  { intros v Hv. apply in_map_iff in Hv. destruct Hv as [kv [<- Hin]].
    rewrite Forall_forall in Hm. exact (Hm kv Hin). }
  unfold bind, rand, ret.
  set (x := inject_Z (rand_stream pos) / inject_Z RAND_MAX * cum).
  destruct (Qltb x cum) eqn:E.
  - apply Qltb_true in E. destruct (existsb (Qltb 0) elements).
    + destruct Hkey as [_ Hk].
      destruct (upper_bound_found m cum x Hk E) as [v [-> Hv]].
      exists v. split; [reflexivity | exact (HP v Hv)].
    + inversion Hkey. subst cum m. exfalso. unfold x in E.
      rewrite Qmult_0_r in E. lra.
  - exists (StdMap.get m x). split; [reflexivity|].
    destruct (get_values_or_zero m x) as [H|H]; [exact (HP _ H) | lia].
Qed.

Lemma squared_distances_length (X : RowMatrixXd) (c : list Q) :
  length (squared_distances X c) = rows X.
Proof.
  unfold squared_distances, neg_rowwise_plus. now rewrite !length_map.
Qed.

Lemma seed_loop_total (RAND_MAX : Z) (rand_stream : N -> Z) (X : RowMatrixXd)
  (k : nat) :
  X <> [] ->
  forall (n i : nat) (A : RowMatrixXd) (dists : VectorXd) (pos : N),
    rows A = k -> (i + n = k)%nat -> length dists = rows X ->
    exists A' pos',
      seed_loop RAND_MAX rand_stream X n i A dists pos = Ok (A', pos')
      /\ rows A' = k.
Proof.
  intros HX. induction n as [|n IH]; intros i A dists pos HA Hi Hd.
  - exists A, pos. split; [reflexivity | exact HA].
  - cbn [seed_loop]. unfold bind at 1.
    set (dists' := zip_with _ dists _).
    assert (Hd' : length dists' = rows X).
    { unfold dists'. rewrite zip_with_length; [exact Hd|].
      now rewrite squared_distances_length. }
    assert (Hne : dists' <> []).
    { destruct dists'; [|discriminate]. cbn in Hd'.
      destruct X; [congruence | discriminate]. }
    destruct (element_from_vector_total RAND_MAX rand_stream dists' pos Hne)
      as [v [-> Hv]].
    unfold bind at 1. rewrite get_row_Ok by (rewrite <- Hd'; exact Hv).
    unfold bind at 1. rewrite set_row_Ok by lia.
    apply IH; [rewrite rows_update; exact HA | lia | exact Hd'].
Qed.

(** The first steps of [initialize_mu], up to the write of the first
    center, succeed when [X] has a row and [k >= 1]. *)
Ltac seed_first_center RAND_MAX rand_stream X pos HX :=
  unfold initialize_mu; unfold bind at 1; unfold rand at 1;
  let v := fresh "randi" in
  let Hv := fresh "Hrandi" in
  let E := fresh "E" in
  destruct (modulo_Ok (rand_stream pos) (rows X) (N.succ pos)) as [v [E Hv]];
  [destruct X; [congruence | discriminate]|];
  unfold bind at 1; rewrite E;
  unfold bind at 1; rewrite (get_row_Ok X v _ Hv).

Lemma initialize_mu_zero (RAND_MAX : Z) (rand_stream : N -> Z)
  (X : RowMatrixXd) (pos : N) :
  X <> [] -> initialize_mu RAND_MAX rand_stream X 0 pos = Fault OutOfBounds.
Proof.
  intro HX. seed_first_center RAND_MAX rand_stream X pos HX.
  unfold bind at 1. rewrite set_row_Fault; [reflexivity|].
  rewrite rows_Zero. lia.
Qed.

Lemma initialize_mu_one (RAND_MAX : Z) (rand_stream : N -> Z)
  (X : RowMatrixXd) (pos : N) :
  X <> [] -> initialize_mu RAND_MAX rand_stream X 1 pos = Fault OutOfBounds.
Proof.
  intro HX. seed_first_center RAND_MAX rand_stream X pos HX.
  unfold bind at 1. rewrite set_row_Ok by (rewrite rows_Zero; lia).
  unfold bind at 1.
  set (dists := squared_distances X _).
  assert (Hne : dists <> []).
  { unfold dists, squared_distances, neg_rowwise_plus.
    destruct X; [congruence | discriminate]. }
  destruct (element_from_vector_total RAND_MAX rand_stream dists
              (N.succ pos) Hne) as [v [-> Hv]].
  unfold bind at 1. rewrite get_row_Ok
    by (unfold dists in Hv; rewrite squared_distances_length in Hv; exact Hv).
  unfold bind at 1. rewrite set_row_Fault; [reflexivity|].
  rewrite rows_update, rows_Zero. lia.
Qed.

Lemma initialize_mu_total (RAND_MAX : Z) (rand_stream : N -> Z)
  (X : RowMatrixXd) (k : nat) (pos : N) :
  (2 <= k)%nat -> X <> [] ->
  exists mu0 pos',
    initialize_mu RAND_MAX rand_stream X k pos = Ok (mu0, pos')
    /\ rows mu0 = k.
Proof.
  intros Hk HX. seed_first_center RAND_MAX rand_stream X pos HX.
  unfold bind at 1. rewrite set_row_Ok by (rewrite rows_Zero; lia).
  unfold bind at 1.
  set (dists := squared_distances X _).
  assert (Hd : length dists = rows X) by apply squared_distances_length.
  assert (Hne : dists <> []).
  { destruct dists; [|discriminate]. cbn in Hd.
    destruct X; [congruence | discriminate]. }
  destruct (element_from_vector_total RAND_MAX rand_stream dists
              (N.succ pos) Hne) as [v [-> Hv]].
  unfold bind at 1. rewrite get_row_Ok by (rewrite <- Hd; exact Hv).
  unfold bind at 1.
  rewrite set_row_Ok by (rewrite rows_update, rows_Zero; lia).
  apply (seed_loop_total RAND_MAX rand_stream X k HX).
  - rewrite !rows_update. apply rows_Zero.
  - lia.
  - exact Hd.
Qed.

Lemma initialize_mu_Ok_two (RAND_MAX : Z) (rand_stream : N -> Z)
  (X : RowMatrixXd) (k : nat) (pos pos' : N) (mu0 : RowMatrixXd) :
  initialize_mu RAND_MAX rand_stream X k pos = Ok (mu0, pos') -> (2 <= k)%nat.
Proof.
  intro H. destruct X as [|x X].
  - discriminate H.
  - destruct k as [|[|k]]; [| |lia].
    + rewrite initialize_mu_zero in H by discriminate. discriminate.
    + rewrite initialize_mu_one in H by discriminate. discriminate.
Qed.

(** The labels and the centers of the loop stay in range. *)
Lemma allocate_clusters_labels (X A : RowMatrixXd) (no_zero : bool) :
  (0 < rows A)%nat ->
  Forall (fun l => (l < rows A)%nat) (allocate_clusters X A no_zero).
Proof.
  intro HA. unfold allocate_clusters.
  destruct (length (active_indices A no_zero) <? 2)%nat.
  - apply Forall_forall. intros l Hl. apply repeat_spec in Hl. lia.
  - apply Forall_forall. intros l Hl. apply in_map_iff in Hl.
    destruct Hl as [d [<- _]].
    destruct (nth_in_or_default (minCoeff surd_ltb d)
                (active_indices A no_zero) O) as [Hin| ->]; [|exact HA].
    apply active_indices_candidate in Hin. exact (proj1 Hin).
Qed.

Lemma rows_reevaluate_centers (X : RowMatrixXd) (inds : VectorXi) (k : nat)
  (reg : Q) :
  rows (reevaluate_centers X inds k reg) = k.
Proof.
  unfold reevaluate_centers.
  destruct (accumulate X inds (Zero k (cols X)) (ZeroXi k)) as [c n].
  unfold rows. now rewrite length_map, length_seq.
Qed.

Lemma rows_centers_at (X : RowMatrixXd) (k : nat) (reg : Q) (no_zero : bool)
  (mu0 : RowMatrixXd) (i : nat) :
  rows mu0 = k -> rows (centers_at X k reg no_zero mu0 i) = k.
Proof.
  intro H. destruct i; [exact H | apply rows_reevaluate_centers].
Qed.

(** C10.  [initialize_mu] writes the second center into row 1 of the center
    matrix without looking at [k].  On data with at least one row: for
    [k = 1] that write is past the end of the one-row matrix, in the seeding
    and so in [find_centers]; a run of [find_centers] that returns a result
    has [k >= 2]; and for every [k >= 2] the seeding succeeds with a matrix
    of [k] rows, the centers keep [k] rows and the labels stay below [k] in
    every iteration, and [find_centers] returns a result. *)
Theorem find_centers_requires_two_centers (RAND_MAX : Z)
  (rand_stream : N -> Z) (X : RowMatrixXd) (reg : Q) (no_zero : bool)
  (pos : N) :
  X <> [] ->
  (initialize_mu RAND_MAX rand_stream X 1 pos = Fault OutOfBounds
   /\ find_centers RAND_MAX rand_stream X 1 reg no_zero pos
      = Fault OutOfBounds)
  /\ (forall k r pos',
        find_centers RAND_MAX rand_stream X k reg no_zero pos = Ok (r, pos') ->
        (2 <= k)%nat)
  /\ (forall k, (2 <= k)%nat ->
        exists mu0 pos' r,
          initialize_mu RAND_MAX rand_stream X k pos = Ok (mu0, pos')
          /\ rows mu0 = k
          /\ (forall i,
                rows (centers_at X k reg no_zero mu0 i) = k
                /\ Forall (fun l => (l < k)%nat)
                     (assignment_at X k reg no_zero mu0 i))
          /\ find_centers RAND_MAX rand_stream X k reg no_zero pos
             = Ok (r, pos')).
Proof.
  intro HX. split; [|split].
  - pose proof (initialize_mu_one RAND_MAX rand_stream X pos HX) as H1.
    split; [exact H1|]. unfold find_centers, bind. rewrite H1. reflexivity.
  - intros k r pos' H. unfold find_centers, bind in H.
    destruct (initialize_mu RAND_MAX rand_stream X k pos) as [[mu0 p]|f] eqn:E;
      [|discriminate].
    exact (initialize_mu_Ok_two _ _ _ _ _ _ _ E).
  - intros k Hk.
    destruct (initialize_mu_total RAND_MAX rand_stream X k pos Hk HX)
      as [mu0 [pos' [Hseed Hrows]]].
    exists mu0, pos'.
    pose proof (find_centers_after_seeding RAND_MAX rand_stream X k reg
                  no_zero pos pos' mu0 Hseed) as Hres.
    eexists. split; [exact Hseed|]. split; [exact Hrows|].
    split; [|exact Hres].
    intro i. pose proof (rows_centers_at X k reg no_zero mu0 i Hrows) as Hc.
    split; [exact Hc|]. unfold assignment_at.
    pose proof (allocate_clusters_labels X (centers_at X k reg no_zero mu0 i)
                  no_zero) as Hl.
    rewrite Hc in Hl. apply Hl. lia.
Qed.

Example find_centers_one_center :
  find_centers 2147483647 example_stream example_data 1 0 false 0%N
  = Fault OutOfBounds.
Proof. reflexivity. Qed.

Lemma find_centers_requires_two_centers_witness :
  initialize_mu 2147483647 example_stream example_data 1 0%N
  = Fault OutOfBounds
  /\ find_centers 2147483647 example_stream example_data 1 0 false 0%N
     = Fault OutOfBounds.
Proof.
  refine (proj1 (find_centers_requires_two_centers 2147483647 example_stream
                   example_data 0 false 0%N _)).
  discriminate.
Defined.

(** * Further properties *)

(** ** Allocator: shape of the result, trimmed and untrimmed allocation *)

(** X1.  [allocate_clusters] returns one label per row of [X], and when the
    center matrix has at least one row every label is the index of one of
    its rows. *)
Theorem allocate_clusters_shape (X A : RowMatrixXd) (no_zero : bool) :
  length (allocate_clusters X A no_zero) = rows X
  /\ ((0 < rows A)%nat ->
      Forall (fun l => (l < rows A)%nat) (allocate_clusters X A no_zero)).
Proof.
  split; [|apply allocate_clusters_labels].
  unfold allocate_clusters, distance_matrix, ZeroXi, rows.
  destruct (length (active_indices A no_zero) <? 2)%nat.
  - apply repeat_length.
  - now rewrite !length_map.
Qed.

Lemma allocate_clusters_shape_witness :
  length (allocate_clusters example_data [[0; 0]; [8; 8]] false) = 5%nat
  /\ Forall (fun l => (l < 2)%nat)
       (allocate_clusters example_data [[0; 0]; [8; 8]] false).
Proof.
  destruct (allocate_clusters_shape example_data [[0; 0]; [8; 8]] false)
    as [Hlen Hall].
  split; [exact Hlen | apply Hall; cbn; lia].
Defined.

(** X2.  When no row of the center matrix is the zero vector, the trimmed
    allocation ([no_zero] set) is the untrimmed one. *)
Theorem allocate_clusters_no_zero_row (X A : RowMatrixXd) :
  (forall r, In r A -> isZero r = false) ->
  allocate_clusters X A true = allocate_clusters X A false.
Proof.
  intro H.
  assert (E : active_indices A true = active_indices A false).
  { unfold active_indices. apply filter_ext_in. intros i Hi.
    apply in_seq in Hi. rewrite H; [reflexivity|].
    apply nth_In. unfold rows in Hi. lia. }
  unfold allocate_clusters. rewrite E. reflexivity.
Qed.

Lemma allocate_clusters_no_zero_row_witness :
  allocate_clusters example_data [[1; 0]; [8; 8]] true
  = allocate_clusters example_data [[1; 0]; [8; 8]] false.
Proof.
  apply (allocate_clusters_no_zero_row example_data [[1; 0]; [8; 8]]).
  intros r [<- | [<- | []]]; reflexivity.
Defined.

(** ** CenterUpdater: shape, the case [reg = 0], the three regimes *)

Lemma accumulate_width (D : nat) (X : RowMatrixXd) (inds : VectorXi) (k : nat) :
  width D X -> length X = length inds ->
  width D (fst (accumulate X inds (Zero k D) (ZeroXi k)))
  /\ length (fst (accumulate X inds (Zero k D) (ZeroXi k))) = k.
Proof.
  intros HX Hlen.
  destruct (accumulate_spec D X HX inds (Zero k D) (ZeroXi k)
              (width_Zero k D) Hlen) as [Hw [Hl _]].
  split; [exact Hw|]. rewrite Hl. apply repeat_length.
Qed.

(** X3.  On a rectangular [X] with one label per row, [reevaluate_centers]
    returns a matrix of [k] rows that are as wide as [X]. *)
Theorem reevaluate_centers_shape (X : RowMatrixXd) (inds : VectorXi) (k : nat)
  (reg : Q) :
  width (cols X) X -> length X = length inds ->
  rows (reevaluate_centers X inds k reg) = k
  /\ width (cols X) (reevaluate_centers X inds k reg).
Proof.
  intros HX Hlen. split; [apply rows_reevaluate_centers|].
  destruct (accumulate_width (cols X) X inds k HX Hlen) as [Hw Hl].
  unfold reevaluate_centers.
  destruct (accumulate X inds (Zero k (cols X)) (ZeroXi k)) as [centers nums].
  cbn [fst] in *. unfold width. apply Forall_forall. intros r Hr.
  apply in_map_iff in Hr. destruct Hr as [i [<- Hi]]. apply in_seq in Hi.
  assert (Hrow : length (row centers i) = cols X)
    by (apply width_row; [exact Hw | unfold rows; lia]).
  unfold row in *. rewrite !map_seq_nth by lia.
  rewrite zip_with_length by (now rewrite !length_map).
  rewrite length_map. exact Hrow.
Qed.

Lemma reevaluate_centers_shape_witness :
  rows (reevaluate_centers example_data [O; O; 1; 1; 2]%nat 3 (1 # 2)) = 3%nat
  /\ width (cols example_data)
       (reevaluate_centers example_data [O; O; 1; 1; 2]%nat 3 (1 # 2)).
Proof.
  apply (reevaluate_centers_shape example_data [O; O; 1; 1; 2]%nat 3 (1 # 2)).
  - repeat constructor.
  - reflexivity.
Defined.

(** The three regimes of the update, from the sign lemma. *)
Lemma Qmult_neg_sign (n a : Q) : 0 < n -> (a <= 0 <-> a * n <= 0).
Proof.
  intro Hn. pose proof (Qmult_pos_sign n (- a) Hn) as H.
  setoid_replace (- a * n) with (- (a * n)) in H by ring.
  split; intro H'.
  - assert (0 <= - (a * n)) by (apply H; lra). lra.
  - assert (0 <= - a) by (apply H; lra). lra.
Qed.

Ltac use_signs :=
  repeat match goal with
    | H : ?P -> _ |- _ =>
        let HP := fresh in
        assert (HP : P) by lra; specialize (H HP); clear HP
    end;
  try lra.

Lemma soft_threshold_regimes (s h n : Q) :
  0 < n -> 0 <= h ->
  (s < - h -> std_min ((s + h) / n) (std_max ((s - h) / n) 0) == (s + h) / n)
  /\ (- h <= s <= h -> std_min ((s + h) / n) (std_max ((s - h) / n) 0) == 0)
  /\ (h < s -> std_min ((s + h) / n) (std_max ((s - h) / n) 0) == (s - h) / n)
  /\ (std_min ((s + h) / n) (std_max ((s - h) / n) 0) == 0 -> - h <= s <= h).
Proof.
  intros Hn Hh.
  assert (Ha : ((s + h) / n) * n == s + h) by (field; lra).
  assert (Hb : ((s - h) / n) * n == s - h) by (field; lra).
  set (a := (s + h) / n) in *. set (b := (s - h) / n) in *.
  clearbody a b.
  pose proof (Qmult_pos_sign n a Hn) as Ha1. rewrite Ha in Ha1.
  pose proof (Qmult_neg_sign n a Hn) as Ha2. rewrite Ha in Ha2.
  pose proof (Qmult_pos_sign n b Hn) as Hb1. rewrite Hb in Hb1.
  pose proof (Qmult_neg_sign n b Hn) as Hb2. rewrite Hb in Hb2.
  destruct Ha1 as [Ha1 Ha1']. destruct Ha2 as [Ha2 Ha2'].
  destruct Hb1 as [Hb1 Hb1']. destruct Hb2 as [Hb2 Hb2'].
  assert (Hab : b <= a).
  { assert (Hd : 0 <= (a - b) * n).
    { setoid_replace ((a - b) * n) with (a * n - b * n) by ring.
      rewrite Ha, Hb. lra. }
    apply (Qmult_pos_sign n (a - b) Hn) in Hd. lra. }
  clear Ha Hb Hn. unfold std_min, std_max.
  destruct (Qltb b 0) eqn:E1; rewrite ?Qltb_true, ?Qltb_false in E1.
  - destruct (Qltb 0 a) eqn:E2; rewrite ?Qltb_true, ?Qltb_false in E2;
      (split; [|split; [|split]]); intros;
      destruct (Qlt_le_dec a 0), (Qlt_le_dec 0 a), (Qlt_le_dec 0 b);
      use_signs.
  - destruct (Qltb b a) eqn:E2; rewrite ?Qltb_true, ?Qltb_false in E2;
      (split; [|split; [|split]]); intros;
      destruct (Qlt_le_dec a 0), (Qlt_le_dec 0 a), (Qlt_le_dec b 0),
        (Qlt_le_dec 0 b);
      use_signs.
Qed.

Lemma half_nonneg (reg : Q) : 0 <= reg -> 0 <= reg / 2.
Proof.
  intro H. unfold Qdiv. change (/ 2) with (1 # 2). lra.
Qed.

(** X4.  For [reg >= 0] and a label [l < k] with at least one member, with
    [s] the sum of column [j] over the rows labelled [l] and [n] their
    number: the new coefficient is exactly 0 if and only if
    [-reg/2 <= s <= reg/2]; above, it is [(s - reg/2)/n]; below, it is
    [(s + reg/2)/n]. *)
Theorem reevaluate_centers_regimes (D : nat) (X : RowMatrixXd)
  (inds : VectorXi) (k : nat) (reg : Q) (l j : nat) :
  width D X -> length X = length inds ->
  (l < k)%nat -> (j < D)%nat -> assigned X inds l <> [] -> 0 <= reg ->
  let s := column_sum (assigned X inds l) j in
  let n := count (assigned X inds l) in
  let c := coeff (reevaluate_centers X inds k reg) l j in
  (c == 0 <-> - (reg / 2) <= s <= reg / 2)
  /\ (reg / 2 < s -> c == (s - reg / 2) / n)
  /\ (s < - (reg / 2) -> c == (s + reg / 2) / n).
Proof.
  intros HX Hlen Hl Hj Hne Hreg s n c.
  pose proof (count_pos _ Hne) as Hn. fold n in Hn.
  assert (Hcols : cols X = D)
    by (apply width_cols; [exact HX | eapply assigned_nonempty, Hne]).
  pose proof (reevaluate_centers_coeff D X inds k reg l j HX Hcols Hlen Hl Hj)
    as Hco.
  fold s n c in Hco.
  destruct (soft_threshold_regimes s (reg / 2) n Hn (half_nonneg reg Hreg))
    as [Hlow [Hmid [Hhigh Hzero]]].
  split; [|split].
  - rewrite Hco. split; [exact Hzero | exact Hmid].
  - intro H. rewrite Hco. exact (Hhigh H).
  - intro H. rewrite Hco. exact (Hlow H).
Qed.

Lemma reevaluate_centers_regimes_witness :
  let X := [[1; 9]; [2; -9]; [1; -9]] in
  let inds := [O; O; O] in
  (coeff (reevaluate_centers X inds 1 8) 0 0 == 0
   <-> - (8 / 2) <= column_sum (assigned X inds 0) 0 <= 8 / 2)
  /\ (8 / 2 < column_sum (assigned X inds 0) 0 ->
      coeff (reevaluate_centers X inds 1 8) 0 0
      == (column_sum (assigned X inds 0) 0 - 8 / 2) / count (assigned X inds 0))
  /\ (column_sum (assigned X inds 0) 0 < - (8 / 2) ->
      coeff (reevaluate_centers X inds 1 8) 0 0
      == (column_sum (assigned X inds 0) 0 + 8 / 2) / count (assigned X inds 0)).
Proof.
  apply (reevaluate_centers_regimes 2 [[1; 9]; [2; -9]; [1; -9]] [O; O; O]
           1 8 0 0).
  - repeat constructor.
  - reflexivity.
  - lia.
  - lia.
  - discriminate.
  - discriminate.
Defined.

(** X5.  With [reg = 0] the new center of a label with at least one member
    is the arithmetic mean of its rows, of either sign. *)
Theorem reevaluate_centers_reg_zero (D : nat) (X : RowMatrixXd)
  (inds : VectorXi) (k l j : nat) :
  width D X -> length X = length inds ->
  (l < k)%nat -> (j < D)%nat -> assigned X inds l <> [] ->
  coeff (reevaluate_centers X inds k 0) l j == mean X inds l j.
Proof.
  intros HX Hlen Hl Hj Hne.
  pose proof (count_pos _ Hne) as Hn.
  assert (Hcols : cols X = D)
    by (apply width_cols; [exact HX | eapply assigned_nonempty, Hne]).
  rewrite (reevaluate_centers_coeff D X inds k 0 l j HX Hcols Hlen Hl Hj).
  unfold mean.
  set (s := column_sum (assigned X inds l) j).
  set (n := count (assigned X inds l)) in *. clearbody s n.
  match goal with
  | |- std_min ?A (std_max ?B 0) == _ =>
      assert (EA : A == s / n) by (field; lra);
      assert (EB : B == s / n) by (field; lra);
      rewrite EA, EB
  end.
  unfold std_min, std_max.
  destruct (Qltb (s / n) 0) eqn:E1; rewrite ?Qltb_true, ?Qltb_false in E1.
  - destruct (Qltb 0 (s / n)) eqn:E2; rewrite ?Qltb_true, ?Qltb_false in E2;
      [lra | reflexivity].
  - destruct (Qltb (s / n) (s / n)); reflexivity.
Qed.

Lemma reevaluate_centers_reg_zero_witness :
  coeff (reevaluate_centers [[-1; 2]; [-3; 4]] [O; O] 1 0) 0 0
  == mean [[-1; 2]; [-3; 4]] [O; O] 0 0.
Proof.
  apply (reevaluate_centers_reg_zero 2 [[-1; 2]; [-3; 4]] [O; O] 1 0 0).
  - repeat constructor.
  - reflexivity.
  - lia.
  - lia.
  - discriminate.
Defined.

(** ** RandomSampler: the bucket of the draw *)

Lemma set_append (m : StdMap.t) (key : Q) (v : nat) :
  Forall (fun kv => fst kv < key) m -> StdMap.set m key v = m ++ [(key, v)].
Proof.
  induction 1 as [|[k' v'] m Hk _ IH]; cbn; [reflexivity|].
  cbn in Hk. apply Qgt_alt in Hk. rewrite Hk. now rewrite IH.
Qed.

Lemma positive_sum_nonneg (elements : VectorXd) (n : nat) :
  0 <= positive_sum elements n.
Proof.
  revert n. induction elements as [|e rest IH]; intros [|n]; cbn; try lra.
  specialize (IH n). destruct (Qltb 0 e) eqn:E; [apply Qltb_true in E|]; lra.
Qed.

(** The first loop of [element_from_vector] appends its entries to the map,
    and leaves in [cum] the sum of the positive elements. *)
Lemma cumulate_buckets (rest : VectorXd) :
  forall (i : nat) (cum : Q) (m : StdMap.t),
    Forall (fun kv => fst kv <= cum) m ->
    snd (cumulate rest i cum m) = m ++ buckets_from rest i cum
    /\ fst (cumulate rest i cum m) == cum + positive_sum rest (length rest).
Proof.
  induction rest as [|e rest IH]; intros i cum m Hm.
  - cbn. rewrite app_nil_r. split; [reflexivity | ring].
  - cbn [cumulate buckets_from positive_sum length].
    destruct (Qltb 0 e) eqn:E.
    + apply Qltb_true in E.
      assert (Hlt : Forall (fun kv => fst kv < cum + e) m).
      { eapply Forall_impl; [|exact Hm]. cbn. intros kv Hkv. lra. }
      rewrite (set_append m (cum + e) i Hlt).
      destruct (IH (S i) (cum + e) (m ++ [(cum + e, i)])) as [Hs Hf].
      { apply Forall_app. split.
        - eapply Forall_impl; [|exact Hlt]. cbn. intros kv Hkv. lra.
        - constructor; [cbn; lra | constructor]. }
      split; [rewrite Hs, <- app_assoc; reflexivity | rewrite Hf; ring].
    + destruct (IH (S i) cum m Hm) as [Hs Hf].
      split; [exact Hs | rewrite Hf; ring].
Qed.

(** Every entry of the map is the upper end of the bucket of a positive
    element. *)
Lemma upper_bound_bucket (rest : VectorXd) :
  forall (i : nat) (cum x : Q) (v : nat),
    cum <= x ->
    StdMap.upper_bound (buckets_from rest i cum) x = Some v ->
    exists j, v = (i + j)%nat /\ (j < length rest)%nat
      /\ 0 < nth j rest 0
      /\ cum + positive_sum rest j <= x
      /\ x < cum + positive_sum rest j + nth j rest 0.
Proof.
  induction rest as [|e rest IH]; intros i cum x v Hx H; [discriminate|].
  cbn [buckets_from] in H. destruct (Qltb 0 e) eqn:E.
  - pose proof E as E'. apply Qltb_true in E'. cbn [StdMap.upper_bound] in H.
    destruct (Qltb x (cum + e)) eqn:Ex.
    + apply Qltb_true in Ex. inversion H. subst v. exists O.
      cbn [nth length positive_sum].
      repeat (split; [first [lia | lra | exact E'] |]). lra.
    + apply Qltb_false in Ex.
      destruct (IH (S i) (cum + e) x v Ex H) as [j [Hv [Hj [Hp [Hlo Hhi]]]]].
      exists (S j). cbn [nth length positive_sum]. rewrite E.
      repeat (split; [first [lia | lra | exact Hp] |]). lra.
  - destruct (IH (S i) cum x v Hx H) as [j [Hv [Hj [Hp [Hlo Hhi]]]]].
    exists (S j). cbn [nth length positive_sum]. rewrite E.
    repeat (split; [first [lia | lra | exact Hp] |]). lra.
Qed.

Lemma get_bucket (rest : VectorXd) :
  forall (i : nat) (cum x : Q),
    has_key (buckets_from rest i cum) x ->
    exists j, StdMap.get (buckets_from rest i cum) x = (i + j)%nat
      /\ (j < length rest)%nat
      /\ 0 < nth j rest 0
      /\ cum + positive_sum rest j + nth j rest 0 == x.
Proof.
  induction rest as [|e rest IH]; intros i cum x [kv [Hin Hk]];
    [contradiction|].
  cbn [buckets_from] in *. destruct (Qltb 0 e) eqn:E.
  - pose proof E as E'. apply Qltb_true in E'. cbn [StdMap.get].
    destruct (Qeq_bool x (cum + e)) eqn:Ex.
    + apply Qeq_bool_iff in Ex. exists O. cbn [nth length positive_sum].
      repeat (split; [first [lia | exact E'] |]). rewrite Ex. ring.
    + destruct Hin as [<- | Hin].
      { cbn in Hk. symmetry in Hk. apply Qeq_bool_iff in Hk. congruence. }
      destruct (IH (S i) (cum + e) x) as [j [Hv [Hj [Hp Hkey]]]];
        [exists kv; split; assumption|].
      exists (S j). cbn [nth length positive_sum]. rewrite E, Hv.
      repeat (split; [first [lia | exact Hp] |]). rewrite <- Hkey. ring.
  - destruct (IH (S i) cum x) as [j [Hv [Hj [Hp Hkey]]]];
      [exists kv; split; assumption|].
    exists (S j). cbn [nth length positive_sum]. rewrite E, Hv.
    repeat (split; [first [lia | exact Hp] |]). rewrite <- Hkey. ring.
Qed.

(** X6.  Weighted pick: with [p i] the sum of the positive weights before
    index [i], [total] the sum of all the positive weights and
    [x = rand()/RAND_MAX * total], the index [i] returned has a positive
    weight [w] and its bucket holds the draw: [p i <= x < p i + w], or, for
    [rand() = RAND_MAX], [x = total = p i + w] (the last positive weight). *)
Theorem element_from_vector_bucket (RAND_MAX : Z) (rand_stream : N -> Z)
  (elements : VectorXd) (pos : N) :
  (0 < RAND_MAX)%Z -> (0 <= rand_stream pos <= RAND_MAX)%Z ->
  (exists i, 0 < nth i elements 0) ->
  let total := positive_sum elements (length elements) in
  let x := inject_Z (rand_stream pos) / inject_Z RAND_MAX * total in
  exists i,
    element_from_vector RAND_MAX rand_stream elements pos = Ok (i, N.succ pos)
    /\ 0 < nth i elements 0
    /\ ((positive_sum elements i <= x
         /\ x < positive_sum elements i + nth i elements 0)
        \/ (x == total
            /\ positive_sum elements i + nth i elements 0 == total)).
Proof.
  intros Hmax Hr [i0 Hi0] total x.
  assert (Hex : existsb (Qltb 0) elements = true).
  { apply existsb_exists. exists (nth i0 elements 0). split.
    - apply nth_In. destruct (Nat.lt_ge_cases i0 (length elements)) as [H|H];
        [exact H|]. rewrite nth_overflow in Hi0 by exact H. lra.
    - apply Qltb_true. exact Hi0. }
  pose proof (cumulate_key elements O 0 []) as Hkey.
  cbn zeta in Hkey. rewrite Hex in Hkey.
  destruct (cumulate_buckets elements O 0 [] (Forall_nil _)) as [Hs Hf].
  unfold element_from_vector.
  destruct (cumulate elements O 0 []) as [cum m]. cbn [fst snd] in *.
  cbn [app] in Hs. subst m. destruct Hkey as [Hcum Hk].
  rewrite Qplus_0_l in Hf. fold total in Hf.
  unfold bind, rand, ret.
  pose proof (rand_fraction RAND_MAX (rand_stream pos) Hmax Hr) as Hu.
  set (u := inject_Z (rand_stream pos) / inject_Z RAND_MAX) in *.
  assert (Hxx : u * cum == x) by (unfold x; rewrite Hf; reflexivity).
  destruct (Qltb (u * cum) cum) eqn:E.
  - apply Qltb_true in E.
    destruct (upper_bound_found _ cum (u * cum) Hk E) as [v [Hv _]].
    rewrite Hv.
    assert (H0 : 0 <= u * cum) by nra.
    destruct (upper_bound_bucket elements O 0 (u * cum) v H0 Hv)
      as [j [Hvj [Hj [Hp [Hlo Hhi]]]]].
    cbn in Hvj. subst v. exists j. split; [reflexivity|]. split; [exact Hp|].
    left. rewrite <- Hxx. lra.
  - apply Qltb_false in E.
    assert (Hx : u * cum == cum) by nra.
    assert (Hk' : has_key (buckets_from elements 0 0) (u * cum)).
    { destruct Hk as [kv [Hin Hkv]]. exists kv.
      split; [exact Hin | now rewrite Hx]. }
    destruct (get_bucket elements O 0 (u * cum) Hk')
      as [j [Hvj [Hj [Hp Hkeyj]]]].
    rewrite Hvj. cbn [Nat.add]. exists j. split; [reflexivity|].
    split; [exact Hp|]. right.
    split; [rewrite <- Hxx, Hx; exact Hf|].
    rewrite Qplus_0_l in Hkeyj. rewrite Hkeyj, Hx. exact Hf.
Qed.

Lemma element_from_vector_bucket_witness :
  let elements := [0; 5; 0; 5] in
  let total := positive_sum elements (length elements) in
  let x := inject_Z 1073741824 / inject_Z 2147483647 * total in
  exists i,
    element_from_vector 2147483647 (fun _ => 1073741824%Z) elements 0%N
    = Ok (i, N.succ 0)
    /\ 0 < nth i elements 0
    /\ ((positive_sum elements i <= x
         /\ x < positive_sum elements i + nth i elements 0)
        \/ (x == total
            /\ positive_sum elements i + nth i elements 0 == total)).
Proof.
  apply (element_from_vector_bucket
           2147483647 (fun _ => 1073741824%Z) [0; 5; 0; 5] 0%N).
  - reflexivity.
  - cbv beta. lia.
  - exists 1%nat. reflexivity.
Defined.

(** X7.  When no weight is strictly positive (in particular on the empty
    vector), [element_from_vector] returns the index 0, whatever the draw:
    the map is empty and [map[x]] yields the default value. *)
Theorem element_from_vector_no_positive (RAND_MAX : Z) (rand_stream : N -> Z)
  (elements : VectorXd) (pos : N) :
  (forall e, In e elements -> e <= 0) ->
  element_from_vector RAND_MAX rand_stream elements pos = Ok (O, N.succ pos).
Proof.
  intro H.
  assert (Hex : existsb (Qltb 0) elements = false).
  { apply not_true_iff_false. intro Hc. apply existsb_exists in Hc.
    destruct Hc as [e [Hin He]]. apply Qltb_true in He.
    specialize (H e Hin). lra. }
  pose proof (cumulate_key elements O 0 []) as Hkey.
  cbn zeta in Hkey. rewrite Hex in Hkey.
  unfold element_from_vector. rewrite Hkey. unfold bind, rand, ret.
  destruct (Qltb _ 0) eqn:E; [|reflexivity].
  apply Qltb_true in E. rewrite Qmult_0_r in E. lra.
Qed.

Lemma element_from_vector_no_positive_witness :
  element_from_vector 2147483647 example_stream [0; -3; 0] 7%N
  = Ok (O, N.succ 7).
Proof.
  apply (element_from_vector_no_positive 2147483647 example_stream
           [0; -3; 0] 7%N).
  intros e [<- | [<- | [<- | []]]]; discriminate.
Defined.

(** ** Seeding and the results of [find_centers] *)

Lemma modulo_value (r : Z) (n : nat) (pos : N) :
  n <> O -> modulo r n pos = Ok (Z.to_nat (r mod Z.of_nat n), pos).
Proof.
  intro Hn. unfold modulo.
  destruct (Nat.eqb_spec n 0) as [|_]; [contradiction | reflexivity].
Qed.

Lemma firstn_update {A : Type} (x : A) (i : nat) (l : list A) :
  (i < length l)%nat ->
  firstn (S i) (update (fun _ => x) i l) = firstn i l ++ [x].
Proof.
  revert i. induction l as [|y l IH]; intros [|i] H; cbn in H; try lia.
  - reflexivity.
  - cbn [update]. rewrite !firstn_cons, IH by lia. reflexivity.
Qed.

Lemma row_In (X : RowMatrixXd) (i : nat) : (i < rows X)%nat -> In (row X i) X.
Proof. intro H. apply nth_In, H. Qed.

(** The loop of [initialize_mu] writes one row of [X] per iteration, draws
    one random number for it, and leaves the rows before [i] as they are. *)
Lemma seed_loop_seeds (RAND_MAX : Z) (rand_stream : N -> Z) (X : RowMatrixXd)
  (k : nat) :
  X <> [] ->
  forall (n i : nat) (A : RowMatrixXd) (dists : VectorXd) (pos : N),
    rows A = k -> (i + n = k)%nat -> (1 <= i)%nat ->
    length dists = rows X ->
    Forall (fun r => In r X) (firstn i A) ->
    exists A',
      seed_loop RAND_MAX rand_stream X n i A dists pos
      = Ok (A', (pos + N.of_nat n)%N)
      /\ rows A' = k
      /\ Forall (fun r => In r X) A'
      /\ row A' 0 = row A 0.
Proof.
  intros HX. induction n as [|n IH]; intros i A dists pos HA Hi Hi1 Hd Hin.
  - exists A. cbn [seed_loop]. unfold ret. rewrite N.add_0_r.
    split; [reflexivity|]. split; [exact HA|]. split; [|reflexivity].
    rewrite firstn_all2 in Hin by (unfold rows in HA; lia). exact Hin.
  - cbn [seed_loop]. unfold bind at 1.
    set (dists' := zip_with _ dists _).
    assert (Hd' : length dists' = rows X).
    { unfold dists'. rewrite zip_with_length; [exact Hd|].
      now rewrite squared_distances_length. }
    assert (Hne : dists' <> []).
    { destruct dists'; [|discriminate]. cbn in Hd'.
      destruct X; [congruence | discriminate]. }
    destruct (element_from_vector_total RAND_MAX rand_stream dists' pos Hne)
      as [v [-> Hv]].
    rewrite Hd' in Hv.
    unfold bind at 1. rewrite get_row_Ok by exact Hv.
    unfold bind at 1. rewrite set_row_Ok by lia.
    destruct (IH (S i) (update (fun _ => row X v) i A) dists' (N.succ pos))
      as [A' [Hrun [HA' [Hall Hrow0]]]].
    + rewrite rows_update. exact HA.
    + lia.
    + lia.
    + exact Hd'.
    + rewrite firstn_update by (unfold rows in HA; lia).
      apply Forall_app. split; [exact Hin|].
      constructor; [apply row_In, Hv | constructor].
    + exists A'. split; [rewrite Hrun; f_equal; f_equal; lia|].
      split; [exact HA'|]. split; [exact Hall|].
      rewrite Hrow0. unfold row. apply update_nth_other. lia.
Qed.

(** The seeding step by step, for [k >= 2] on data with at least one row. *)
Lemma initialize_mu_seeding (RAND_MAX : Z) (rand_stream : N -> Z)
  (X : RowMatrixXd) (k : nat) (pos : N) :
  (2 <= k)%nat -> X <> [] ->
  exists mu0,
    initialize_mu RAND_MAX rand_stream X k pos
    = Ok (mu0, (pos + N.of_nat k)%N)
    /\ rows mu0 = k
    /\ (forall r, In r mu0 -> In r X)
    /\ row mu0 0
       = row X (Z.to_nat (rand_stream pos mod Z.of_nat (rows X))).
Proof.
  intros Hk HX.
  assert (Hrows : rows X <> O) by (destruct X; [congruence | discriminate]).
  set (randi := Z.to_nat (rand_stream pos mod Z.of_nat (rows X))).
  assert (Hrandi : (randi < rows X)%nat).
  { unfold randi. pose proof (Z.mod_pos_bound (rand_stream pos)
                                (Z.of_nat (rows X))). lia. }
  unfold initialize_mu. unfold bind at 1. unfold rand at 1.
  unfold bind at 1. rewrite (modulo_value _ _ _ Hrows). fold randi.
  unfold bind at 1. rewrite (get_row_Ok X randi _ Hrandi).
  unfold bind at 1. rewrite set_row_Ok by (rewrite rows_Zero; lia).
  unfold bind at 1.
  set (A1 := update (fun _ => row X randi) 0 (Zero k (cols X))).
  set (dists := squared_distances X _).
  assert (Hd : length dists = rows X) by apply squared_distances_length.
  assert (Hne : dists <> []).
  { destruct dists; [|discriminate]. cbn in Hd. congruence. }
  destruct (element_from_vector_total RAND_MAX rand_stream dists
              (N.succ pos) Hne) as [v [-> Hv]].
  rewrite Hd in Hv.
  assert (HA1 : rows A1 = k) by (unfold A1; rewrite rows_update; apply rows_Zero).
  unfold bind at 1. rewrite get_row_Ok by exact Hv.
  unfold bind at 1. rewrite set_row_Ok by lia.
  destruct (seed_loop_seeds RAND_MAX rand_stream X k HX (k - 2) 2
              (update (fun _ => row X v) 1 A1) dists (N.succ (N.succ pos)))
    as [A' [Hrun [HA' [Hall Hrow0]]]].
  - rewrite rows_update. exact HA1.
  - lia.
  - lia.
  - exact Hd.
  - rewrite firstn_update by (unfold rows in HA1; lia).
    unfold A1. rewrite firstn_update
      by (pose proof (rows_Zero k (cols X)) as Hz; unfold rows in Hz; lia).
    cbn [firstn app].
    constructor; [apply row_In, Hrandi|].
    constructor; [apply row_In, Hv | constructor].
  - exists A'. split; [rewrite Hrun; f_equal; f_equal; lia|].
    split; [exact HA'|]. split.
    + rewrite Forall_forall in Hall. exact Hall.
    + rewrite Hrow0. unfold row.
      rewrite update_nth_other by lia. unfold A1.
      apply update_nth_same.
      pose proof (rows_Zero k (cols X)) as Hz. unfold rows in Hz. lia.
Qed.

(** X8.  Seeding, for [k >= 2] on data with at least one row:
    [initialize_mu] returns [k] centers, each of them a row of [X], the
    first one being the row [rand() % X_rows]; it draws exactly [k] random
    numbers. *)
Theorem initialize_mu_seeds (RAND_MAX : Z) (rand_stream : N -> Z)
  (X : RowMatrixXd) (k : nat) (pos : N) :
  (2 <= k)%nat -> X <> [] ->
  exists mu0,
    initialize_mu RAND_MAX rand_stream X k pos
    = Ok (mu0, (pos + N.of_nat k)%N)
    /\ rows mu0 = k
    /\ (forall r, In r mu0 -> In r X)
    /\ row mu0 0
       = row X (Z.to_nat (rand_stream pos mod Z.of_nat (rows X))).
Proof.
  exact (initialize_mu_seeding RAND_MAX rand_stream X k pos).
Qed.

Lemma initialize_mu_seeds_witness :
  exists mu0,
    initialize_mu 2147483647 example_stream example_data 3 0%N
    = Ok (mu0, (0 + N.of_nat 3)%N)
    /\ rows mu0 = 3%nat
    /\ (forall r, In r mu0 -> In r example_data)
    /\ row mu0 0
       = row example_data
           (Z.to_nat (example_stream 0 mod Z.of_nat (rows example_data))).
Proof.
  apply (initialize_mu_seeds 2147483647 example_stream example_data 3 0%N).
  - lia.
  - discriminate.
Defined.

(** What a successful seeding tells about its arguments and its result. *)
Lemma initialize_mu_Ok_inv (RAND_MAX : Z) (rand_stream : N -> Z)
  (X : RowMatrixXd) (k : nat) (pos pos' : N) (mu0 : RowMatrixXd) :
  initialize_mu RAND_MAX rand_stream X k pos = Ok (mu0, pos') ->
  X <> [] /\ (2 <= k)%nat /\ rows mu0 = k
  /\ pos' = (pos + N.of_nat k)%N
  /\ (forall r, In r mu0 -> In r X).
Proof.
  intro H.
  assert (HX : X <> []) by (intros ->; discriminate H).
  pose proof (initialize_mu_Ok_two _ _ _ _ _ _ _ H) as Hk.
  destruct (initialize_mu_seeding RAND_MAX rand_stream X k pos Hk HX)
    as [mu0' [Hrun [Hrows [Hin _]]]].
  rewrite Hrun in H. inversion H. subst mu0' pos'. auto.
Qed.

(** X9.  [find_centers] returns a result exactly when the data have at
    least one row and [k >= 2]; on empty data it stops at [rand() % 0]. *)
Theorem find_centers_defined (RAND_MAX : Z) (rand_stream : N -> Z)
  (X : RowMatrixXd) (k : nat) (reg : Q) (no_zero : bool) (pos : N) :
  ((exists r pos',
       find_centers RAND_MAX rand_stream X k reg no_zero pos = Ok (r, pos'))
   <-> X <> [] /\ (2 <= k)%nat)
  /\ (X = [] ->
      find_centers RAND_MAX rand_stream X k reg no_zero pos
      = Fault ModuloByZero).
Proof.
  split; [split|].
  - intros [r [pos' H]]. unfold find_centers, bind in H.
    destruct (initialize_mu RAND_MAX rand_stream X k pos) as [[mu0 p]|f] eqn:E;
      [|discriminate].
    destruct (initialize_mu_Ok_inv _ _ _ _ _ _ _ E) as [HX [Hk _]]. auto.
  - intros [HX Hk].
    destruct (initialize_mu_total RAND_MAX rand_stream X k pos Hk HX)
      as [mu0 [pos' [Hseed _]]].
    eexists. exists pos'.
    exact (find_centers_after_seeding _ _ _ _ reg no_zero _ _ _ Hseed).
  - intros ->. reflexivity.
Qed.

Lemma find_centers_defined_witness :
  find_centers 2147483647 example_stream [] 3 0 false 0%N
  = Fault ModuloByZero.
Proof.
  refine (proj2 (find_centers_defined 2147483647 example_stream [] 3 0 false
                   0%N) _).
  reflexivity.
Defined.

Lemma allocate_clusters_length (X A : RowMatrixXd) (no_zero : bool) :
  length (allocate_clusters X A no_zero) = rows X.
Proof.
  unfold allocate_clusters, distance_matrix, ZeroXi, rows.
  destruct (length (active_indices A no_zero) <? 2)%nat.
  - apply repeat_length.
  - now rewrite !length_map.
Qed.

(** The state in which the loop of [find_centers] ends. *)
Lemma loop_final (X : RowMatrixXd) (k : nat) (reg : Q) (no_zero : bool)
  (mu0 : RowMatrixXd) :
  let st0 :=
    {| mu := mu0; mu_ind := OnesXi (rows X); mu_ind_old := ZeroXi (rows X) |} in
  let st := fst (loop X k reg no_zero count_limit 0 st0) in
  let e := snd (loop X k reg no_zero count_limit 0 st0) in
  match e with
  | Converged i =>
      mu_ind st = allocate_clusters X (mu st) no_zero
      /\ mu st = centers_at X k reg no_zero mu0 i
  | IterationLimit =>
      mu st = reevaluate_centers X (mu_ind st) k (reg_schedule reg 999)
      /\ mu_ind st
         = allocate_clusters X (centers_at X k reg no_zero mu0 999) no_zero
  end.
Proof.
  intros st0 st e.
  assert (Hst0 : starts X k reg no_zero mu0 0 st0)
    by (split; [reflexivity | intro H; inversion H]).
  pose proof (loop_spec X k reg no_zero mu0 count_limit 0 st0 Hst0) as Hloop.
  fold e st in Hloop. destruct e as [i|].
  - destruct Hloop as [_ [_ [_ [Hmu Hmi]]]].
    split; [|exact Hmu]. rewrite Hmi, Hmu. reflexivity.
  - destruct Hloop as [_ [Hmu Hmi]].
    assert (Hmi' : mu_ind st = assignment_at X k reg no_zero mu0 999)
      by (rewrite Hmi by (unfold count_limit; lia); reflexivity).
    split; [|exact Hmi'].
    rewrite Hmu, Hmi'. reflexivity.
Qed.

(** X10.  Every result of [find_centers] holds one label per row of [X],
    all labels below [k], and [k] centers; the run has drawn exactly [k]
    random numbers. *)
Theorem find_centers_result_shape (RAND_MAX : Z) (rand_stream : N -> Z)
  (X : RowMatrixXd) (k : nat) (reg : Q) (no_zero : bool) (pos pos' : N)
  (r : Return_values) :
  find_centers RAND_MAX rand_stream X k reg no_zero pos = Ok (r, pos') ->
  length (indexes r) = rows X
  /\ Forall (fun l => (l < k)%nat) (indexes r)
  /\ rows (centers r) = k
  /\ pos' = (pos + N.of_nat k)%N.
Proof.
  intro H. unfold find_centers, bind in H. cbv zeta in H.
  destruct (initialize_mu RAND_MAX rand_stream X k pos) as [[mu0 p]|f] eqn:E;
    [|discriminate].
  destruct (initialize_mu_Ok_inv _ _ _ _ _ _ _ E) as [HX [Hk [Hrows [Hp _]]]].
  pose proof (loop_final X k reg no_zero mu0) as Hfin. cbv zeta in Hfin.
  destruct (loop X k reg no_zero count_limit 0 _) as [st e].
  cbn [fst snd] in Hfin. unfold ret in H.
  injection H as Hr Hpos. subst r pos'. cbn [indexes centers].
  assert (Hmi : exists A, rows A = k /\ mu_ind st = allocate_clusters X A no_zero).
  { destruct e as [i|].
    - destruct Hfin as [Hmi Hmu]. exists (mu st). split; [|exact Hmi].
      rewrite Hmu. apply rows_centers_at, Hrows.
    - destruct Hfin as [_ Hmi]. eexists. split; [|exact Hmi].
      apply rows_centers_at, Hrows. }
  assert (Hmu : rows (mu st) = k).
  { destruct e as [i|].
    - destruct Hfin as [_ Hmu]. rewrite Hmu. apply rows_centers_at, Hrows.
    - destruct Hfin as [Hmu _]. rewrite Hmu. apply rows_reevaluate_centers. }
  destruct Hmi as [A [HA Hmi]]. rewrite Hmi.
  split; [apply allocate_clusters_length|].
  split; [|split; [exact Hmu | exact Hp]].
  rewrite <- HA. apply allocate_clusters_labels. lia.
Qed.

Lemma find_centers_result_shape_witness :
  exists r pos',
    find_centers 2147483647 example_stream example_data 3 0 false 0%N
    = Ok (r, pos')
    /\ length (indexes r) = rows example_data
    /\ Forall (fun l => (l < 3)%nat) (indexes r)
    /\ rows (centers r) = 3%nat
    /\ pos' = (0 + N.of_nat 3)%N.
Proof.
  pose proof (find_centers_after_seeding 2147483647 example_stream
                example_data 3 0 false 0%N 3%N [[0; 0]; [8; 8]; [0; 1]]
                initialize_mu_example) as F.
  eexists. eexists. split; [exact F|].
  exact (find_centers_result_shape _ _ _ _ _ _ _ _ _ F).
Defined.

(** X11.  When the loop of [find_centers] is left by [break], the labels
    returned are the allocation of the points to the centers returned: one
    more allocation changes nothing.  When it ends at the iteration limit,
    the centers returned are the update computed from the labels
    returned. *)
Theorem find_centers_fixed_point (RAND_MAX : Z) (rand_stream : N -> Z)
  (X : RowMatrixXd) (k : nat) (reg : Q) (no_zero : bool) (pos pos' : N)
  (mu0 : RowMatrixXd) (r : Return_values) :
  initialize_mu RAND_MAX rand_stream X k pos = Ok (mu0, pos') ->
  find_centers RAND_MAX rand_stream X k reg no_zero pos = Ok (r, pos') ->
  match
    snd (loop X k reg no_zero count_limit 0
           {| mu := mu0; mu_ind := OnesXi (rows X);
              mu_ind_old := ZeroXi (rows X) |})
  with
  | Converged _ => indexes r = allocate_clusters X (centers r) no_zero
  | IterationLimit =>
      centers r = reevaluate_centers X (indexes r) k (reg_schedule reg 999)
  end.
Proof.
  intros Hseed H. unfold find_centers, bind in H. cbv zeta in H.
  rewrite Hseed in H.
  pose proof (loop_final X k reg no_zero mu0) as Hfin. cbv zeta in Hfin.
  destruct (loop X k reg no_zero count_limit 0 _) as [st e].
  cbn [fst snd] in *. unfold ret in H.
  injection H as Hr. subst r. cbn [indexes centers].
  destruct e as [i|]; exact (proj1 Hfin).
Qed.

Lemma find_centers_fixed_point_witness :
  exists r,
    find_centers 2147483647 example_stream example_data 3 0 false 0%N
    = Ok (r, 3%N)
    /\ indexes r = allocate_clusters example_data (centers r) false.
Proof.
  pose proof (find_centers_after_seeding 2147483647 example_stream
                example_data 3 0 false 0%N 3%N [[0; 0]; [8; 8]; [0; 1]]
                initialize_mu_example) as F.
  eexists. split; [exact F|].
  pose proof (find_centers_fixed_point _ _ _ _ _ _ _ _ _ _
                initialize_mu_example F) as W.
  assert (E : snd (loop example_data 3 0 false count_limit 0
                     {| mu := [[0; 0]; [8; 8]; [0; 1]];
                        mu_ind := OnesXi (rows example_data);
                        mu_ind_old := ZeroXi (rows example_data) |})
              = Converged 21) by (vm_compute; reflexivity).
  rewrite E in W. exact W.
Defined.

(** ** The objective: [cluster_norm] *)

Lemma fold_left_add {A : Type} (F : Q -> A -> Q) (g : A -> Q) (l : list A) :
  (forall a i, F a i == a + g i) ->
  forall a0, fold_left F l a0 == a0 + sum (map g l).
Proof.
  intro HF. induction l as [|i l IH]; intro a0; cbn [fold_left map].
  - unfold sum. cbn. ring.
  - rewrite IH, HF, sum_cons. ring.
Qed.

Lemma fold_left_ge {A : Type} (F : Q -> A -> Q) (l : list A) :
  (forall a i, a <= F a i) -> forall a0, a0 <= fold_left F l a0.
Proof.
  intro HF. induction l as [|i l IH]; intro a0; cbn [fold_left]; [lra|].
  specialize (IH (F a0 i)). specialize (HF a0 i). lra.
Qed.

Lemma sum_map_ext {A : Type} (f g : A -> Q) (l : list A) :
  (forall i, In i l -> f i == g i) -> sum (map f l) == sum (map g l).
Proof.
  intro H. unfold sum. apply fold_left_Qplus_compat; [|reflexivity].
  induction l as [|i l IH]; cbn; constructor.
  - apply H. now left.
  - apply IH. intros j Hj. apply H. now right.
Qed.

Lemma sum_map_plus {A : Type} (f g : A -> Q) (l : list A) :
  sum (map (fun i => f i + g i) l) == sum (map f l) + sum (map g l).
Proof.
  induction l as [|i l IH]; cbn [map].
  - unfold sum. cbn. ring.
  - rewrite !sum_cons, IH. ring.
Qed.

Lemma sum_map_scale (c : Q) (l : list Q) :
  sum (map (fun x => x * c) l) == c * sum l.
Proof.
  induction l as [|x l IH]; cbn [map].
  - unfold sum. cbn. ring.
  - rewrite !sum_cons, IH. ring.
Qed.

Lemma map_nth_seq {A B : Type} (h : A -> B) (d : A) (l : list A) :
  map (fun j => h (nth j l d)) (seq 0 (length l)) = map h l.
Proof.
  induction l as [|x l IH]; [reflexivity|].
  cbn [length seq map nth]. f_equal.
  rewrite <- seq_shift, map_map. exact IH.
Qed.

(** Summing a rectangular matrix by columns or by rows gives the same. *)
Lemma sum_by_columns (D : nat) (A : RowMatrixXd) (reg : Q) :
  width D A ->
  sum (map (fun i => sum (map (fun r => nth i r 0 * reg) A)) (seq 0 D))
  == reg * total_mass A.
Proof.
  unfold total_mass. induction 1 as [|r A Hr HA IH]; cbn [map].
  - rewrite (sum_map_ext _ (fun _ => 0 + 0)) by (intros; unfold sum; cbn; ring).
    induction (seq 0 D) as [|i l IHl]; cbn [map].
    + unfold sum. cbn. ring.
    + rewrite sum_cons, IHl. unfold sum. cbn. ring.
  - rewrite (sum_map_ext _
               (fun i => nth i r 0 * reg
                         + sum (map (fun r' => nth i r' 0 * reg) A)))
      by (intros; apply sum_cons).
    rewrite sum_map_plus, IH, sum_cons.
    rewrite <- Hr.
    rewrite (map_nth_seq (fun x => x * reg) 0 r), sum_map_scale. ring.
Qed.

(** X12.  For a rectangular center matrix, [cluster_norm] is the
    within-cluster sum of squared distances plus [reg] times the sum of all
    the coefficients of the centers. *)
Theorem cluster_norm_decomposition (D : nat) (X centers : RowMatrixXd)
  (ind : VectorXi) (reg : Q) :
  width D centers ->
  cluster_norm X centers ind reg
  == sum_of_squares X centers ind + reg * total_mass centers.
Proof.
  intro Hw. unfold cluster_norm.
  rewrite (fold_left_add _
             (fun i => sum (map (fun r => nth i r 0 * reg) centers))).
  - rewrite (fold_left_add _
               (fun i => squaredNorm
                           (vsub (row X i) (row centers (nth i ind O)))))
      by (intros; reflexivity).
    fold (sum_of_squares X centers ind). rewrite Qplus_0_l.
    destruct centers as [|r centers'] eqn:Ec.
    + cbn. unfold total_mass, sum. cbn. ring.
    + rewrite <- Ec in *.
      rewrite (width_cols D centers Hw) by (rewrite Ec; discriminate).
      rewrite (sum_by_columns D centers reg Hw). reflexivity.
  - intros a i.
    rewrite (fold_left_add _ (fun j => coeff centers j i * reg))
      by (intros; reflexivity).
    unfold coeff, row, rows.
    rewrite (map_nth_seq (fun r => nth i r 0 * reg) [] centers). reflexivity.
Qed.

Lemma cluster_norm_decomposition_witness :
  cluster_norm example_data [[1; 0]; [8; 8]; [0; 1]] [O; O; 1; 1; 2]%nat (1 # 2)
  == sum_of_squares example_data [[1; 0]; [8; 8]; [0; 1]] [O; O; 1; 1; 2]%nat
     + (1 # 2) * total_mass [[1; 0]; [8; 8]; [0; 1]].
Proof.
  apply (cluster_norm_decomposition 2 example_data [[1; 0]; [8; 8]; [0; 1]]
           [O; O; 1; 1; 2]%nat (1 # 2)).
  repeat constructor.
Defined.

Lemma coeff_nonneg (A : RowMatrixXd) (j i : nat) :
  nonnegative A -> 0 <= coeff A j i.
Proof.
  intro H. unfold coeff, row, nonnegative in *. rewrite Forall_forall in H.
  destruct (nth_in_or_default j A []) as [Hin|E].
  - specialize (H _ Hin). rewrite Forall_forall in H.
    destruct (nth_in_or_default i (nth j A []) 0) as [Hin'|E'];
      [apply H, Hin' | rewrite E'; lra].
  - rewrite E. destruct i; cbn; lra.
Qed.

(** X13.  For [reg >= 0] and centers without negative coefficient,
    [cluster_norm] is at least the within-cluster sum of squared distances,
    and so is not negative. *)
Theorem cluster_norm_lower_bound (X centers : RowMatrixXd) (ind : VectorXi)
  (reg : Q) :
  0 <= reg -> nonnegative centers ->
  0 <= sum_of_squares X centers ind
  /\ sum_of_squares X centers ind <= cluster_norm X centers ind reg.
Proof.
  intros Hreg Hc. split.
  - unfold sum_of_squares. apply sum_nonneg, Forall_forall.
    intros y Hy. apply in_map_iff in Hy. destruct Hy as [i [<- _]].
    apply squaredNorm_nonneg.
  - unfold cluster_norm.
    set (ssq := fold_left _ (seq 0 (rows X)) 0).
    assert (Hssq : ssq == sum_of_squares X centers ind).
    { unfold ssq.
      rewrite (fold_left_add _
                 (fun i => squaredNorm
                             (vsub (row X i) (row centers (nth i ind O)))))
        by (intros; reflexivity).
      unfold sum_of_squares. ring. }
    rewrite <- Hssq. apply fold_left_ge. intros a i. apply fold_left_ge.
    intros b j. pose proof (coeff_nonneg centers j i Hc). nra.
Qed.

Lemma cluster_norm_lower_bound_witness :
  0 <= sum_of_squares example_data [[1; 0]; [8; 8]] [O; O; 1; 1; O]%nat
  /\ sum_of_squares example_data [[1; 0]; [8; 8]] [O; O; 1; 1; O]%nat
     <= cluster_norm example_data [[1; 0]; [8; 8]] [O; O; 1; 1; O]%nat 3.
Proof.
  apply (cluster_norm_lower_bound example_data [[1; 0]; [8; 8]]
           [O; O; 1; 1; O]%nat 3).
  - discriminate.
  - repeat constructor; discriminate.
Defined.

(** ** StabilityMetric: too few points, symmetry, range, chance term *)

Lemma draw_pair_one (rand_stream : N -> Z) (fuel : nat) :
  forall pos, draw_pair rand_stream fuel 1 pos = Fault FuelExhausted.
Proof.
  induction fuel as [|fuel IH]; intro pos; [reflexivity|].
  rewrite draw_pair_S. unfold modulo. cbn [Nat.eqb]. unfold ret.
  change (Z.of_nat 1) with 1%Z. rewrite !Z.mod_1_r. cbn [Z.to_nat Nat.eqb].
  apply IH.
Qed.

Lemma indice_num_succ : exists m, N.to_nat indice_num = S m.
Proof.
  destruct (N.to_nat indice_num) as [|m] eqn:E;
    [unfold indice_num in E; lia | now exists m].
Qed.

(** X14.  [cluster_distance] needs two points.  On empty label vectors the
    first draw computes a remainder modulo 0; on vectors of length 1 the loop
    [while (i == j)] never ends, whatever the random stream: every amount of
    fuel is exhausted. *)
Theorem cluster_distance_too_few_points (rand_stream : N -> Z)
  (c1 c2 : VectorXi) (k : nat) (pos : N) :
  (length c1 = O ->
   forall fuel,
     cluster_distance rand_stream (S fuel) c1 c2 k pos = Fault ModuloByZero)
  /\ (length c1 = 1%nat ->
      forall fuel,
        cluster_distance rand_stream fuel c1 c2 k pos = Fault FuelExhausted).
Proof.
  destruct indice_num_succ as [m Hm].
  split; intros Hlen fuel; unfold cluster_distance, bind;
    rewrite Hlen, Hm; cbn [stability_loop]; unfold bind.
  - rewrite draw_pair_S. reflexivity.
  - rewrite draw_pair_one. reflexivity.
Qed.

Lemma cluster_distance_too_few_points_witness :
  cluster_distance example_stream 1000 [2%nat] [O] 3 0%N = Fault FuelExhausted.
Proof.
  refine (proj2 (cluster_distance_too_few_points example_stream [2%nat] [O]
                   3 0%N) _ 1000%nat).
  reflexivity.
Defined.

Lemma agree_sym (c1 c2 : VectorXi) (i j : nat) (stability : Q) :
  agree c1 c2 i j stability = agree c2 c1 i j stability.
Proof.
  unfold agree.
  destruct (nth i c1 O =? nth j c1 O)%nat, (nth i c2 O =? nth j c2 O)%nat;
    reflexivity.
Qed.

Lemma stability_loop_sym (rand_stream : N -> Z) (fuel : nat)
  (c1 c2 : VectorXi) (intSize n : nat) :
  forall (stability : Q) (pos : N),
    stability_loop rand_stream fuel c1 c2 intSize n stability pos
    = stability_loop rand_stream fuel c2 c1 intSize n stability pos.
Proof.
  induction n as [|n IH]; intros stability pos; [reflexivity|].
  cbn [stability_loop]. unfold bind.
  destruct (draw_pair rand_stream fuel intSize pos) as [[[i j] p]|f];
    [|reflexivity].
  rewrite agree_sym. apply IH.
Qed.

Lemma chance_sym (c1 c2 : VectorXi) (k : nat) :
  length c1 = length c2 -> chance c1 c2 k == chance c2 c1 k.
Proof.
  intro H. unfold chance. rewrite H. cbv zeta. ring.
Qed.

(** X15.  On two label vectors of one length, [cluster_distance] is
    symmetric: exchanging the two vectors gives, on the same random stream,
    the same score and leaves the stream at the same position. *)
Theorem cluster_distance_symmetric (rand_stream : N -> Z) (fuel : nat)
  (c1 c2 : VectorXi) (k : nat) (pos pos' : N) (d : Q) :
  length c1 = length c2 ->
  cluster_distance rand_stream fuel c1 c2 k pos = Ok (d, pos') ->
  exists d',
    cluster_distance rand_stream fuel c2 c1 k pos = Ok (d', pos')
    /\ d' == d.
Proof.
  intros Hlen H. unfold cluster_distance, bind in *. rewrite <- Hlen.
  rewrite (stability_loop_sym rand_stream fuel c2 c1).
  destruct (stability_loop rand_stream fuel c1 c2 (length c1)
              (N.to_nat indice_num) 0 pos) as [[s p]|f]; [|discriminate].
  unfold ret in *. injection H as Hd Hp. subst p.
  eexists. split; [reflexivity|].
  rewrite <- Hd, (chance_sym c2 c1 k) by congruence. reflexivity.
Qed.

Lemma cluster_distance_symmetric_witness :
  exists d pos' d',
    cluster_distance example_stream 64 [O; O; 1%nat] [O; 1%nat; 1%nat] 2 0%N
    = Ok (d, pos')
    /\ cluster_distance example_stream 64 [O; 1%nat; 1%nat] [O; O; 1%nat] 2 0%N
       = Ok (d', pos')
    /\ d' == d.
Proof.
  eexists. eexists.
  assert (H : cluster_distance example_stream 64 [O; O; 1%nat]
                [O; 1%nat; 1%nat] 2 0%N = Ok (_, _))
    by (vm_compute; reflexivity).
  destruct (cluster_distance_symmetric example_stream 64 [O; O; 1%nat]
              [O; 1%nat; 1%nat] 2 0%N _ _ eq_refl H) as [d' [H' Hd]].
  exists d'. split; [exact H|]. split; [exact H' | exact Hd].
Defined.

Lemma agree_step (c1 c2 : VectorXi) (i j : nat) (stability : Q) :
  stability <= agree c1 c2 i j stability <= stability + 1.
Proof.
  unfold agree.
  destruct (nth i c1 O =? nth j c1 O)%nat, (nth i c2 O =? nth j c2 O)%nat;
    cbn [andb negb]; lra.
Qed.

Lemma stability_loop_range (rand_stream : N -> Z) (fuel : nat)
  (c1 c2 : VectorXi) (intSize n : nat) :
  forall (stability : Q) (pos pos' : N) (s : Q),
    stability_loop rand_stream fuel c1 c2 intSize n stability pos
    = Ok (s, pos') ->
    stability <= s <= stability + inject_Z (Z.of_nat n).
Proof.
  induction n as [|n IH]; intros stability pos pos' s H.
  - cbn in H. inversion H. change (inject_Z (Z.of_nat 0)) with 0. lra.
  - cbn [stability_loop] in H. unfold bind in H.
    destruct (draw_pair rand_stream fuel intSize pos) as [[[i j] p]|f];
      [|discriminate].
    specialize (IH _ _ _ _ H).
    pose proof (agree_step c1 c2 i j stability) as Ha.
    rewrite Nat2Z.inj_succ. unfold Z.succ. rewrite inject_Z_plus.
    change (inject_Z 1) with 1. lra.
Qed.

(** X16.  The score that [cluster_distance] returns is
    [(rate - chance) / (1 - chance)] for an agreement rate between 0 and 1;
    when the chance term is below 1 the score is at most 1. *)
Theorem cluster_distance_range (rand_stream : N -> Z) (fuel : nat)
  (c1 c2 : VectorXi) (k : nat) (pos pos' : N) (d : Q) :
  cluster_distance rand_stream fuel c1 c2 k pos = Ok (d, pos') ->
  exists rate,
    0 <= rate <= 1
    /\ d == (rate - chance c1 c2 k) / (1 - chance c1 c2 k)
    /\ (chance c1 c2 k < 1 -> d <= 1).
Proof.
  intro H. unfold cluster_distance, bind in H.
  destruct (stability_loop rand_stream fuel c1 c2 (length c1)
              (N.to_nat indice_num) 0 pos) as [[s p]|f] eqn:E; [|discriminate].
  unfold ret in H. injection H as Hd Hp.
  pose proof (stability_loop_range _ _ _ _ _ _ _ _ _ _ E) as Hs.
  rewrite N_nat_Z in Hs.
  set (M := inject_Z (Z.of_N indice_num)) in *.
  assert (HM : 0 < M) by reflexivity.
  assert (Hrate : 0 <= s / M <= 1).
  { split.
    - apply Qle_shift_div_l; [exact HM | lra].
    - apply Qle_shift_div_r; [exact HM | lra]. }
  exists (s / M). split; [exact Hrate|]. split; [rewrite <- Hd; reflexivity|].
  intro HF. rewrite <- Hd.
  change (s / M) with (s / inject_Z 10000) in Hrate.
  set (rate := s / inject_Z 10000) in *. clearbody rate.
  set (F := chance c1 c2 k) in *. clearbody F.
  apply Qle_shift_div_r; lra.
Qed.

Lemma cluster_distance_range_witness :
  exists d pos' rate,
    cluster_distance example_stream 64 [O; O; 1%nat] [O; 1%nat; 1%nat] 2 0%N
    = Ok (d, pos')
    /\ 0 <= rate <= 1
    /\ d == (rate - chance [O; O; 1%nat] [O; 1%nat; 1%nat] 2)
            / (1 - chance [O; O; 1%nat] [O; 1%nat; 1%nat] 2).
Proof.
  eexists. eexists.
  assert (H : cluster_distance example_stream 64 [O; O; 1%nat]
                [O; 1%nat; 1%nat] 2 0%N = Ok (_, _))
    by (vm_compute; reflexivity).
  destruct (cluster_distance_range example_stream 64 [O; O; 1%nat]
              [O; 1%nat; 1%nat] 2 0%N _ _ H) as [rate [Hr [Hd _]]].
  exists rate. split; [exact H|]. split; [exact Hr | exact Hd].
Defined.








(** ** Bootstrap samples *)

Lemma mapM_rand (rand_stream : N -> Z) {A : Type} (l : list A) :
  forall pos,
    exists vs,
      mapM (fun _ => rand rand_stream) l pos
      = Ok (vs, (pos + N.of_nat (length l))%N)
      /\ length vs = length l.
Proof.
  induction l as [|a l IH]; intro pos.
  - exists []. cbn. unfold ret. rewrite N.add_0_r. auto.
  - cbn [mapM]. unfold bind at 1. unfold rand at 1.
    destruct (IH (N.succ pos)) as [vs [Hvs Hlen]].
    unfold bind at 1. rewrite Hvs. unfold ret.
    eexists. split; [f_equal; f_equal; cbn [length]; lia|].
    cbn [length]. now rewrite Hlen.
Qed.

Lemma mapM_rows (X : RowMatrixXd) (vs : list Z) (pos : N) :
  rows X <> O ->
  mapM (fun r => bind (modulo r (rows X)) (fun rand_num => ret (row X rand_num)))
    vs pos
  = Ok (map (fun r => row X (Z.to_nat (r mod Z.of_nat (rows X)))) vs, pos).
Proof.
  intro HX. induction vs as [|r vs IH]; [reflexivity|].
  cbn [mapM map]. unfold bind at 1. unfold bind at 1.
  rewrite (modulo_value _ _ _ HX). unfold ret at 1.
  unfold bind at 1. rewrite IH. reflexivity.
Qed.

(** X18.  On data with at least one row, [bootstrap_data] returns exactly
    [bootstrapSamples] rows, each of them a row of [X] (also when more rows
    are asked for than [X] has), and draws [bootstrapSamples] random
    numbers. *)
Theorem bootstrap_data_rows (rand_stream : N -> Z) (X : RowMatrixXd)
  (bootstrapSamples : nat) (pos : N) :
  X <> [] ->
  exists B,
    bootstrap_data rand_stream X bootstrapSamples pos
    = Ok (B, (pos + N.of_nat bootstrapSamples)%N)
    /\ rows B = bootstrapSamples
    /\ (forall r, In r B -> In r X).
Proof.
  intro HX.
  assert (Hrows : rows X <> O) by (destruct X; [congruence | discriminate]).
  unfold bootstrap_data, bind at 1.
  destruct (mapM_rand rand_stream (seq 0 bootstrapSamples) pos)
    as [vs [Hvs Hlen]].
  rewrite Hvs, length_seq. rewrite length_seq in Hlen.
  rewrite (mapM_rows X vs _ Hrows).
  eexists. split; [reflexivity|]. split.
  - unfold rows. now rewrite length_map.
  - intros r Hr. apply in_map_iff in Hr. destruct Hr as [v [<- _]].
    apply row_In.
    pose proof (Z.mod_pos_bound v (Z.of_nat (rows X))). lia.
Qed.

Lemma bootstrap_data_rows_witness :
  exists B,
    bootstrap_data example_stream [[1; 2]; [3; 4]] 5 0%N
    = Ok (B, (0 + N.of_nat 5)%N)
    /\ rows B = 5%nat
    /\ (forall r, In r B -> In r [[1; 2]; [3; 4]]).
Proof.
  apply (bootstrap_data_rows example_stream [[1; 2]; [3; 4]] 5 0%N).
  discriminate.
Defined.

(** X19.  On data without rows, [bootstrap_data] returns the empty sample
    when no row is asked for, and computes a remainder modulo 0 as soon as
    one row is asked for. *)
Theorem bootstrap_data_empty (rand_stream : N -> Z) (pos : N) :
  bootstrap_data rand_stream [] 0 pos = Ok ([], pos)
  /\ forall n, bootstrap_data rand_stream [] (S n) pos = Fault ModuloByZero.
Proof.
  split; [reflexivity|]. intro n. unfold bootstrap_data, bind at 1.
  destruct (mapM_rand rand_stream (seq 0 (S n)) pos) as [vs [Hvs Hlen]].
  rewrite Hvs. destruct vs as [|v vs]; [discriminate Hlen | reflexivity].
Qed.

(** ** Used clusters *)

Lemma fold_left_map_comp {A B C : Type} (F : A -> B -> A) (g : C -> B)
  (s : list C) :
  forall a, fold_left F (map g s) a = fold_left (fun a i => F a (g i)) s a.
Proof.
  induction s as [|i s IH]; intro a; [reflexivity | apply IH].
Qed.

Lemma fold_left_nth_seq {A B : Type} (F : A -> B -> A) (d : B) (l : list B)
  (a0 : A) :
  fold_left (fun a i => F a (nth i l d)) (seq 0 (length l)) a0
  = fold_left F l a0.
Proof.
  rewrite <- (fold_left_map_comp F (fun i => nth i l d)).
  rewrite (map_nth_seq (fun x => x) d l), map_id. reflexivity.
Qed.

(** The loop of [n_used_clusters] leaves a 1 at the labels that occur. *)
Lemma mark_spec (inds : VectorXi) :
  forall (p : VectorXi),
    length (fold_left (fun p l => update (fun _ => 1%nat) l p) inds p)
    = length p
    /\ forall j, (j < length p)%nat ->
         nth j (fold_left (fun p l => update (fun _ => 1%nat) l p) inds p) O
         = if existsb (Nat.eqb j) inds then 1%nat else nth j p O.
Proof.
  induction inds as [|l inds IH]; intro p; [split; reflexivity|].
  cbn [fold_left existsb].
  destruct (IH (update (fun _ => 1%nat) l p)) as [Hlen Hnth].
  rewrite update_length in *. split; [exact Hlen|].
  intros j Hj. rewrite (Hnth j Hj).
  destruct (Nat.eqb_spec j l) as [->|Hne]; cbn [orb].
  - rewrite update_nth_same by exact Hj.
    destruct (existsb (Nat.eqb l) inds); reflexivity.
  - rewrite update_nth_other by congruence. reflexivity.
Qed.

Lemma fold_left_add_list_sum (l : list nat) (a : nat) :
  fold_left Nat.add l a = (a + list_sum l)%nat.
Proof.
  revert a. induction l as [|x l IH]; intro a; simpl; [lia|].
  rewrite IH. lia.
Qed.

Lemma list_sum_indicator (f : nat -> bool) (l : list nat) :
  list_sum (map (fun j => if f j then 1%nat else O) l) = length (filter f l).
Proof.
  induction l as [|x l IH]; [reflexivity|].
  simpl. destruct (f x); simpl; lia.
Qed.

(** X20.  For labels below [k], [n_used_clusters] is the number of distinct
    labels that occur, and so at most [k]. *)
Theorem n_used_clusters_distinct (k : nat) (inds : VectorXi) :
  Forall (fun l => (l < k)%nat) inds ->
  n_used_clusters k inds = length (nodup Nat.eq_dec inds)
  /\ (n_used_clusters k inds <= k)%nat.
Proof.
  intro Hk. unfold n_used_clusters.
  rewrite (fold_left_nth_seq (fun p l => update (fun _ => 1%nat) l p) O inds).
  destruct (mark_spec inds (ZeroXi k)) as [Hlen Hnth].
  assert (Hz : length (ZeroXi k) = k) by apply repeat_length.
  rewrite Hz in *.
  cbv zeta.
  set (population :=
         fold_left (fun p l => update (fun _ => 1%nat) l p) inds (ZeroXi k))
    in *.
  assert (Hpop : population
                 = map (fun j => if existsb (Nat.eqb j) inds then 1%nat else O)
                     (seq 0 k)).
  { apply (nth_ext _ _ O O).
    - now rewrite length_map, length_seq.
    - intros j Hj. rewrite Hlen in Hj. rewrite (Hnth j Hj).
      rewrite (map_seq_nth _ _ _ _ Hj).
      unfold ZeroXi. now rewrite nth_repeat_lt by exact Hj. }
  rewrite fold_left_add_list_sum, Hpop, list_sum_indicator. cbn [Nat.add].
  set (used := filter (fun j => existsb (Nat.eqb j) inds) (seq 0 k)).
  assert (Hin : forall x, In x used <-> In x (nodup Nat.eq_dec inds)).
  { intro x. unfold used. rewrite filter_In, in_seq, nodup_In, existsb_exists.
    split.
    - intros [_ [y [Hy Hxy]]]. apply Nat.eqb_eq in Hxy. now subst y.
    - intro Hx. rewrite Forall_forall in Hk. specialize (Hk x Hx).
      split; [lia|]. exists x. split; [exact Hx | apply Nat.eqb_refl]. }
  assert (Hnd : NoDup used) by (apply NoDup_filter, seq_NoDup).
  split.
  - apply Nat.le_antisymm.
    + apply NoDup_incl_length; [exact Hnd | intros x Hx; now apply Hin].
    + apply NoDup_incl_length; [apply NoDup_nodup | intros x Hx; now apply Hin].
  - unfold used. pose proof (filter_length_le
                  (fun j => existsb (Nat.eqb j) inds) (seq 0 k)) as Hle.
    rewrite length_seq in Hle. exact Hle.
Qed.

Lemma n_used_clusters_distinct_witness :
  n_used_clusters 4 [2; O; 2; 2; O]%nat
  = length (nodup Nat.eq_dec [2; O; 2; 2; O]%nat)
  /\ (n_used_clusters 4 [2; O; 2; 2; O]%nat <= 4)%nat.
Proof.
  apply (n_used_clusters_distinct 4 [2; O; 2; 2; O]%nat).
  repeat constructor.
Defined.

(** ** HyperparameterSearch: [optimize_param] *)

Lemma foldM_step_in {St A : Type} (f : St -> A -> M St) (l : list A) :
  forall (s : St) (pos : N) (s' : St) (pos' : N),
    foldM f l s pos = Ok (s', pos') ->
    forall a, In a l -> exists s1 p1 s2 p2, f s1 a p1 = Ok (s2, p2).
Proof.
  induction l as [|b l IH]; intros s pos s' pos' H a Ha; [contradiction|].
  cbn [foldM] in H. unfold bind in H.
  destruct (f s b pos) as [[s1 p1]|e] eqn:E; [|discriminate].
  destruct Ha as [<- | Ha].
  - now exists s, pos, s1, p1.
  - exact (IH _ _ _ _ H a Ha).
Qed.

Lemma foldM_count {St A : Type} (I : nat -> St -> Prop) (c : nat)
  (f : St -> A -> M St) :
  (forall n s a p s' p', I n s -> f s a p = Ok (s', p') -> I (n + c)%nat s') ->
  forall (l : list A) (n : nat) (s : St) (pos : N) (s' : St) (pos' : N),
    I n s -> foldM f l s pos = Ok (s', pos') ->
    I (n + c * length l)%nat s'.
Proof.
  intros Hstep. induction l as [|a l IH]; intros n s pos s' pos' Hs H.
  - cbn in H. unfold ret in H. injection H as <- _.
    cbn [length]. rewrite Nat.mul_0_r, Nat.add_0_r. exact Hs.
  - cbn [foldM] in H. unfold bind in H.
    destruct (f s a pos) as [[s1 p1]|e] eqn:E; [|discriminate].
    pose proof (IH _ _ _ _ _ (Hstep _ _ _ _ _ _ Hs E) H) as Hr.
    cbn [length]. replace (n + c * S (length l))%nat
      with (n + c + c * length l)%nat by lia. exact Hr.
Qed.

Lemma Forall_update {A : Type} (P : A -> Prop) (g : A -> A) (j : nat)
  (l : list A) :
  (forall x, P x -> P (g x)) -> Forall P l -> Forall P (update g j l).
Proof.
  intros Hg H. revert j. induction H as [|x l Hx Hl IH]; intros [|j]; cbn;
    constructor; auto.
Qed.

Lemma add_coeff_shape (K R : nat) (A : RowMatrixXd) (j l : nat) (v : Q) :
  rows A = K /\ width R A ->
  rows (add_coeff A j l v) = K /\ width R (add_coeff A j l v).
Proof.
  intros [Hr Hw]. unfold add_coeff, rows in *. split.
  - now rewrite update_length.
  - apply Forall_update; [|exact Hw]. intros x Hx. now rewrite update_length.
Qed.

(** What one grid cell that returns tells: the two runs of [find_centers]
    returned, and the accumulators keep their shape. *)
Lemma grid_cell_Ok (RAND_MAX : Z) (rand_stream : N -> Z) (fuel : nat)
  (X : RowMatrixXd) (k : list nat) (reg : VectorXd) (bootstrapSamples : nat)
  (j l : nat) (s s' : search_state) (pos pos' : N) :
  grid_cell RAND_MAX rand_stream fuel X k reg bootstrapSamples j l s pos
  = Ok (s', pos') ->
  (2 <= nth j k O)%nat
  /\ forall K R n, search_shape K R n s -> search_shape K R (n + 1) s'.
Proof.
  intro H. unfold grid_cell in H. unfold bind at 1 in H.
  destruct (bootstrap_data rand_stream X bootstrapSamples pos)
    as [[b1 p1]|e]; [|discriminate].
  unfold bind at 1 in H.
  destruct (bootstrap_data rand_stream X bootstrapSamples p1)
    as [[b2 p2]|e]; [|discriminate].
  cbv zeta in H. unfold bind at 1 in H.
  destruct (find_centers RAND_MAX rand_stream b1 (nth j k O) (nth l reg 0)
              true p2) as [[ret1 p3]|e] eqn:E1; [|discriminate].
  unfold bind at 1 in H.
  destruct (find_centers RAND_MAX rand_stream b2 (nth j k O) (nth l reg 0)
              true p3) as [[ret2 p4]|e]; [|discriminate].
  unfold bind at 1 in H.
  destruct (cluster_distance rand_stream fuel _ _ (nth j k O) p4)
    as [[d p5]|e]; [|discriminate].
  unfold ret in H. injection H as Hs Hp. split.
  - unfold find_centers, bind in E1.
    destruct (initialize_mu RAND_MAX rand_stream b1 (nth j k O) p2)
      as [[mu0 p]|e] eqn:E; [|discriminate].
    exact (initialize_mu_Ok_two _ _ _ _ _ _ _ E).
  - intros K R n [Hd1 [Hd2 [Hf1 [Hf2 [Hc1 Hc2]]]]]. subst s'.
    unfold search_shape. cbn [acc_distances acc_found_cluster acc_centers].
    destruct (add_coeff_shape K R (acc_distances s) j l d (conj Hd1 Hd2))
      as [Hd1' Hd2'].
    destruct (add_coeff_shape K R (acc_found_cluster s) j l
                (inject_Z (Z.of_nat (n_used_clusters (nth j k O) (indexes ret1))))
                (conj Hf1 Hf2)) as [Hf1' Hf2'].
    destruct (add_coeff_shape K R _ j l
                (inject_Z (Z.of_nat (n_used_clusters (nth j k O) (indexes ret2))))
                (conj Hf1' Hf2')) as [Hf1'' Hf2''].
    split; [exact Hd1'|]. split; [exact Hd2'|].
    split; [exact Hf1''|]. split; [exact Hf2''|]. split.
    + rewrite length_app, Hc1. reflexivity.
    + apply Forall_app. split; [exact Hc2|]. constructor; [reflexivity|].
      constructor.
Qed.

Lemma scale_down_shape (K R : nat) (A : RowMatrixXd) (d : Q) :
  rows A = K -> width R A ->
  rows (scale_down A d) = K /\ width R (scale_down A d).
Proof.
  intros Hr Hw. unfold scale_down, rows, width in *. split.
  - now rewrite length_map.
  - apply Forall_forall. intros r Hin. apply in_map_iff in Hin.
    destruct Hin as [r' [<- Hr']]. rewrite length_map.
    rewrite Forall_forall in Hw. exact (Hw r' Hr').
Qed.

(** X21.  A run of [optimize_param] that returns yields matrices with one
    row per candidate [k] and one column per candidate [reg], and a list of
    centers holding four matrices for each of the
    [iterations * k_size * reg_size] grid cells visited. *)
Theorem optimize_param_shape (RAND_MAX : Z) (rand_stream : N -> Z)
  (fuel : nat) (X : RowMatrixXd) (k : list nat) (reg : VectorXd)
  (iterations bootstrapSamples : nat) (pos pos' : N)
  (o : Optimization_values) :
  optimize_param RAND_MAX rand_stream fuel X k reg iterations bootstrapSamples
    pos = Ok (o, pos') ->
  rows (distances o) = length k /\ width (length reg) (distances o)
  /\ rows (found_cluster o) = length k
  /\ width (length reg) (found_cluster o)
  /\ length (opt_centers o) = (iterations * (length k * length reg))%nat
  /\ Forall (fun t => length t = 4%nat) (opt_centers o).
Proof.
  intro H. unfold optimize_param in H. cbv zeta in H. unfold bind in H.
  destruct (foldM _ (seq 0 iterations) _ pos) as [[s p]|e] eqn:E;
    [|discriminate].
  unfold ret in H. injection H as Ho Hp. subst o.
  cbn [distances found_cluster opt_centers].
  set (K := length k) in *. set (R := length reg) in *.
  assert (Hcell : forall j n s0 l p0 s1 p1,
             search_shape K R n s0 ->
             grid_cell RAND_MAX rand_stream fuel X k reg bootstrapSamples
               j l s0 p0 = Ok (s1, p1) ->
             search_shape K R (n + 1) s1).
  { intros j n s0 l p0 s1 p1 Hs0 Hc.
    exact (proj2 (grid_cell_Ok _ _ _ _ _ _ _ _ _ _ _ _ _ Hc) K R n Hs0). }
  assert (Hrow : forall n s0 j p0 s1 p1,
             search_shape K R n s0 ->
             foldM (fun s l => grid_cell RAND_MAX rand_stream fuel X k reg
                                 bootstrapSamples j l s)
               (seq 0 R) s0 p0 = Ok (s1, p1) ->
             search_shape K R (n + R) s1).
  { intros n s0 j p0 s1 p1 Hs0 Hf.
    pose proof (foldM_count (search_shape K R) 1 _ (Hcell j)
                  (seq 0 R) n s0 p0 s1 p1 Hs0 Hf) as Hr.
    rewrite length_seq, Nat.mul_1_l in Hr. exact Hr. }
  assert (Hiter : forall n s0 (i : nat) p0 s1 p1,
             search_shape K R n s0 ->
             foldM (fun s j =>
                      foldM (fun s l => grid_cell RAND_MAX rand_stream fuel X
                                          k reg bootstrapSamples j l s)
                        (seq 0 R) s)
               (seq 0 K) s0 p0 = Ok (s1, p1) ->
             search_shape K R (n + K * R) s1).
  { intros n s0 i p0 s1 p1 Hs0 Hf.
    pose proof (foldM_count (search_shape K R) R _ Hrow
                  (seq 0 K) n s0 p0 s1 p1 Hs0 Hf) as Hr.
    rewrite length_seq, Nat.mul_comm in Hr. exact Hr. }
  assert (H0 : search_shape K R 0
                 {| acc_distances := Zero K R;
                    acc_found_cluster := Zero K R;
                    acc_centers := [] |}).
  { unfold search_shape. cbn [acc_distances acc_found_cluster acc_centers].
    repeat split; try apply rows_Zero; try apply width_Zero. constructor. }
  pose proof (foldM_count (search_shape K R) (K * R) _ Hiter
                (seq 0 iterations) 0 _ pos s p H0 E) as Hfin.
  rewrite length_seq in Hfin. cbn [Nat.add] in Hfin.
  destruct Hfin as [Hd1 [Hd2 [Hf1 [Hf2 [Hc1 Hc2]]]]].
  destruct (scale_down_shape K R (acc_distances s)
              (inject_Z (Z.of_nat iterations)) Hd1 Hd2) as [Hd1' Hd2'].
  destruct (scale_down_shape K R (acc_found_cluster s)
              (inject_Z ((Z.of_nat iterations * 2) mod 2 ^ 32)) Hf1 Hf2)
    as [Hf1' Hf2'].
  split; [exact Hd1'|]. split; [exact Hd2'|]. split; [exact Hf1'|].
  split; [exact Hf2'|]. split; [|exact Hc2].
  rewrite Hc1. lia.
Qed.

Lemma optimize_param_shape_witness :
  exists o pos',
    optimize_param 2147483647 example_stream 64 example_data [2]%nat
      [1 # 2] 1 4 0%N = Ok (o, pos')
    /\ rows (distances o) = 1%nat /\ width 1 (distances o)
    /\ rows (found_cluster o) = 1%nat /\ width 1 (found_cluster o)
    /\ length (opt_centers o) = 1%nat
    /\ Forall (fun t => length t = 4%nat) (opt_centers o).
Proof.
  eexists. eexists. split; [vm_compute; reflexivity|].
  refine (optimize_param_shape 2147483647 example_stream 64%nat example_data
            [2]%nat [1 # 2] 1%nat 4%nat 0%N _ _ _).
  vm_compute. reflexivity.
Defined.

(** X22.  A run of [optimize_param] that returns, with at least one
    iteration and one candidate [reg], has every candidate [k] at least 2:
    a candidate below 2 makes the seeding write past the center matrix. *)
Theorem optimize_param_candidates (RAND_MAX : Z) (rand_stream : N -> Z)
  (fuel : nat) (X : RowMatrixXd) (k : list nat) (reg : VectorXd)
  (iterations bootstrapSamples : nat) (pos pos' : N)
  (o : Optimization_values) :
  optimize_param RAND_MAX rand_stream fuel X k reg iterations bootstrapSamples
    pos = Ok (o, pos') ->
  (1 <= iterations)%nat -> reg <> [] ->
  Forall (fun kj => (2 <= kj)%nat) k.
Proof.
  intros H Hit Hreg. unfold optimize_param in H. cbv zeta in H.
  unfold bind in H.
  destruct (foldM _ (seq 0 iterations) _ pos) as [[s p]|e] eqn:E;
    [|discriminate].
  clear H. apply Forall_forall. intros kj Hkj.
  destruct (In_nth k kj O Hkj) as [j [Hj <-]].
  destruct (foldM_step_in _ _ _ _ _ _ E O) as [s1 [p1 [s2 [p2 E1]]]];
    [apply in_seq; lia|].
  destruct (foldM_step_in _ _ _ _ _ _ E1 j) as [s3 [p3 [s4 [p4 E2]]]];
    [apply in_seq; lia|].
  assert (Hr : (0 < length reg)%nat)
    by (destruct reg; [congruence | cbn; lia]).
  destruct (foldM_step_in _ _ _ _ _ _ E2 O) as [s5 [p5 [s6 [p6 E3]]]];
    [apply in_seq; lia|].
  exact (proj1 (grid_cell_Ok _ _ _ _ _ _ _ _ _ _ _ _ _ E3)).
Qed.

Lemma optimize_param_candidates_witness :
  exists o pos',
    optimize_param 2147483647 example_stream 64 example_data [2]%nat
      [1 # 2] 1 4 0%N = Ok (o, pos')
    /\ Forall (fun kj => (2 <= kj)%nat) [2]%nat.
Proof.
  eexists. eexists. split; [vm_compute; reflexivity|].
  refine (optimize_param_candidates 2147483647 example_stream 64%nat
            example_data [2]%nat [1 # 2] 1%nat 4%nat 0%N _ _ _ _ _).
  - vm_compute. reflexivity.
  - lia.
  - discriminate.
Defined.

(** A candidate [k = 1] at the head of the grid. *)
Example optimize_param_one_center :
  optimize_param 2147483647 example_stream 64 example_data [1; 2]%nat
    [1 # 2] 1 4 0%N = Fault OutOfBounds.
Proof. vm_compute. reflexivity. Qed.

(** ** Seeding: the second center *)

Lemma seed_loop_prefix (RAND_MAX : Z) (rand_stream : N -> Z) (X : RowMatrixXd)
  (n : nat) :
  forall (i : nat) (A : RowMatrixXd) (dists : VectorXd) (pos : N)
         (A' : RowMatrixXd) (pos' : N),
    seed_loop RAND_MAX rand_stream X n i A dists pos = Ok (A', pos') ->
    forall j, (j < i)%nat -> row A' j = row A j.
Proof.
  induction n as [|n IH]; intros i A dists pos A' pos' H j Hj.
  - cbn in H. unfold ret in H. injection H as <- _. reflexivity.
  - cbn [seed_loop] in H. unfold bind at 1 in H.
    destruct (element_from_vector RAND_MAX rand_stream _ pos)
      as [[e p1]|f]; [|discriminate].
    unfold bind at 1 in H.
    destruct (get_row X e p1) as [[x p2]|f]; [|discriminate].
    unfold bind at 1 in H. unfold set_row in H.
    destruct (i <? rows A)%nat; [|discriminate].
    unfold ret at 1 in H.
    rewrite (IH _ _ _ _ _ _ H j) by lia.
    unfold row. apply update_nth_other. lia.
Qed.

Lemma squared_distances_nth (X : RowMatrixXd) (c : list Q) (i : nat) :
  (i < rows X)%nat ->
  nth i (squared_distances X c) 0
  = squaredNorm (vadd (map Qopp (row X i)) c).
Proof.
  intro H. unfold squared_distances, neg_rowwise_plus. rewrite map_map.
  unfold row. apply (map_nth_lt (fun x => squaredNorm (vadd (map Qopp x) c))).
  exact H.
Qed.

(** X23.  Seeding, with the second draw between 0 and [RAND_MAX]: when some
    row of [X] is at a positive distance from the first center, the second
    center is at a positive distance from the first one, so the two first
    centers differ. *)
Theorem initialize_mu_second_center (RAND_MAX : Z) (rand_stream : N -> Z)
  (X : RowMatrixXd) (k : nat) (pos pos' : N) (mu0 : RowMatrixXd) :
  (0 < RAND_MAX)%Z ->
  (0 <= rand_stream (N.succ pos) <= RAND_MAX)%Z ->
  initialize_mu RAND_MAX rand_stream X k pos = Ok (mu0, pos') ->
  (exists x, In x X /\ 0 < squaredNorm (vadd (map Qopp x) (row mu0 0))) ->
  0 < squaredNorm (vadd (map Qopp (row mu0 1)) (row mu0 0)).
Proof.
  intros Hmax Hr H [x [Hx Hpos]].
  unfold initialize_mu in H. unfold bind at 1 in H. unfold rand at 1 in H.
  unfold bind at 1 in H.
  destruct (modulo (rand_stream pos) (rows X) (N.succ pos))
    as [[randi p0]|f] eqn:Em; [|discriminate].
  assert (Hp0 : p0 = N.succ pos).
  { unfold modulo in Em. destruct (rows X =? 0)%nat; [discriminate|].
    unfold ret in Em. now injection Em as _ <-. }
  subst p0. unfold bind at 1 in H.
  destruct (get_row X randi (N.succ pos)) as [[x0 p1]|f] eqn:Eg;
    [|discriminate].
  assert (Hp1 : p1 = N.succ pos).
  { unfold get_row in Eg. destruct (nth_error X randi); [|discriminate].
    unfold ret in Eg. now injection Eg as _ <-. }
  subst p1. unfold bind at 1 in H. unfold set_row at 1 in H.
  destruct (0 <? rows (Zero k (cols X)))%nat eqn:E0; [|discriminate].
  unfold ret at 1 in H. unfold bind at 1 in H.
  set (A1 := update (fun _ => x0) 0 (Zero k (cols X))) in *.
  assert (HA1 : row A1 0 = x0).
  { unfold A1, row. apply update_nth_same. apply Nat.ltb_lt in E0. exact E0. }
  rewrite HA1 in H.
  set (dists := squared_distances X x0) in *.
  destruct (element_from_vector RAND_MAX rand_stream dists (N.succ pos))
    as [[e p2]|f] eqn:Ee; [|discriminate].
  unfold bind at 1 in H.
  destruct (get_row X e p2) as [[x1 p3]|f] eqn:Eg1; [|discriminate].
  assert (Hx1 : x1 = row X e /\ (e < rows X)%nat).
  { unfold get_row in Eg1. destruct (nth_error X e) as [r|] eqn:En;
      [|discriminate].
    unfold ret in Eg1. injection Eg1 as <- _.
    assert (He : (e < rows X)%nat)
      by (apply nth_error_Some; rewrite En; discriminate).
    split; [|exact He]. unfold row.
    symmetry. apply nth_error_nth. exact En. }
  destruct Hx1 as [-> He].
  unfold bind at 1 in H. unfold set_row at 1 in H.
  destruct (1 <? rows A1)%nat eqn:E1; [|discriminate].
  unfold ret at 1 in H.
  apply Nat.ltb_lt in E1.
  assert (Hrow0 : row mu0 0 = x0).
  { rewrite (seed_loop_prefix _ _ _ _ _ _ _ _ _ _ H 0%nat) by lia.
    unfold row. rewrite update_nth_other by lia. exact HA1. }
  assert (Hrow1 : row mu0 1 = row X e).
  { rewrite (seed_loop_prefix _ _ _ _ _ _ _ _ _ _ H 1%nat) by lia.
    unfold row at 1. rewrite update_nth_same by exact E1. reflexivity. }
  rewrite Hrow0 in *. rewrite Hrow1.
  destruct (In_nth X x [] Hx) as [i [Hi Hxi]].
  assert (Hex : exists i, 0 < nth i dists 0).
  { exists i. unfold dists. rewrite squared_distances_nth by exact Hi.
    unfold row. rewrite Hxi. exact Hpos. }
  assert (He0 : 0 < nth e dists 0).
  { clear - Hmax Hr Hex Ee.
    pose proof (cumulate_values (fun v => 0 < nth v dists 0) dists O 0 [])
      as Hval.
    pose proof (cumulate_key dists O 0 []) as Hkey. cbn zeta in Hkey.
    assert (Hb : existsb (Qltb 0) dists = true).
    { destruct Hex as [i Hi]. apply existsb_exists.
      exists (nth i dists 0). split.
      - apply nth_In. destruct (Nat.lt_ge_cases i (length dists)) as [L|L];
          [exact L|]. rewrite nth_overflow in Hi by exact L. lra.
      - apply Qltb_true. exact Hi. }
    rewrite Hb in Hkey. unfold element_from_vector in Ee.
    destruct (cumulate dists O 0 []) as [cum m]. cbn [fst snd] in *.
    destruct Hkey as [Hcum Hk].
    assert (Hm : Forall (fun kv => 0 < nth (snd kv) dists 0) m)
      by (apply Hval; [intros j _ Hj; exact Hj | constructor]).
    assert (HP : forall v, In v (map snd m) -> 0 < nth v dists 0).
    { intros v Hv. apply in_map_iff in Hv. destruct Hv as [kv [<- Hin]].
      rewrite Forall_forall in Hm. exact (Hm kv Hin). }
    unfold bind, rand, ret in Ee.
    pose proof (rand_fraction RAND_MAX _ Hmax Hr) as Hu.
    set (u := inject_Z (rand_stream (N.succ pos)) / inject_Z RAND_MAX) in *.
    destruct (Qltb (u * cum) cum) eqn:E.
    - apply Qltb_true in E.
      destruct (upper_bound_found m cum (u * cum) Hk E) as [v [Hv Hvin]].
      rewrite Hv in Ee. injection Ee as <- _. exact (HP v Hvin).
    - apply Qltb_false in E. assert (Hx : u * cum == cum) by nra.
      injection Ee as <- _. apply HP, get_found.
      destruct Hk as [kv [Hin Hkv]]. exists kv.
      split; [exact Hin | now rewrite Hx]. }
  unfold dists in He0. rewrite squared_distances_nth in He0 by exact He.
  exact He0.
Qed.

Lemma initialize_mu_second_center_witness :
  0 < squaredNorm
        (vadd (map Qopp (row [[0; 0]; [8; 8]; [0; 1]] 1))
           (row [[0; 0]; [8; 8]; [0; 1]] 0)).
Proof.
  apply (initialize_mu_second_center 2147483647 example_stream example_data
           3 0%N 3%N [[0; 0]; [8; 8]; [0; 1]]).
  - reflexivity.
  - vm_compute. split; discriminate.
  - vm_compute. reflexivity.
  - exists [1; 0]. split; [right; now left | reflexivity].
Defined.
